(** * Monte Carlo portfolio simulation: model and verified properties

    Shallow embedding of the simulation-and-aggregation engine of
    [src/conf/webpack.prod.config.js] (the TypeScript module that defines
    [initializeOptions], [createMonteCarloEnvironment], [calculateProject],
    [syncMonteCarlo], ...).

    Modelling conventions.
    - A JavaScript [number] that the program computes by arithmetic is an
      exact rational ([Q]): no rounding error, no overflow.  Integral
      quantities that are used as counts or array indices ([numYears],
      [numRuns], [startYear]) are integers ([Z]).  The one division of the
      program, by the index of the previous year in [toAbsoluteIndices], is
      the division of [Q]; a previous index of 0 (a draw of exactly -1),
      for which JavaScript yields NaN or an infinity, is outside the model.
      A theorem that promises what a run computes from such numbers
      therefore carries the hypotheses that keep the run where exact
      numbers stand for doubles: no index of 0, and sums within
      [Number.MAX_VALUE].
    - A value that may be [undefined] (an out-of-range array read, an absent
      object property) or [NaN] (arithmetic on [undefined]) is a [number]
      of the three-constructor type below.
    - Exceptions and non-termination are results: [Throw] and [OutOfFuel].
      A property of the options is present with a value or absent; a
      property that is present with the value [undefined] is not modelled.
    - Project objects are compared by identity ([===]) in the source, so an
      array of projects is a list of references into an immutable table of
      project objects; project arrays live in a store because
      [Object.assign] copies the reference to the caller's array and
      [Array.prototype.sort] sorts in place.
    - The generator [new Random(10)] of the external package simjs-random is
      a parameter: [random k mu sigma] is the value of the [k]-th call
      [random.normal(mu, sigma)] on a freshly constructed generator. *)

From Stdlib Require Import ZArith QArith Qround Lia Lqa.
From stdpp Require Import base option list gmap strings sorting.

(** ** Results of running JavaScript code *)

Inductive error : Type :=
  | TypeError
  | RangeError.

Inductive outcome (A : Type) : Type :=
  | Ok (a : A)
  | Throw (e : error)
  | OutOfFuel.

Arguments Ok {A} a.
Arguments Throw {A} e.
Arguments OutOfFuel {A}.

Definition outcome_bind {A B : Type} (k : A → outcome B) (m : outcome A) : outcome B :=
  match m with
  | Ok a => k a
  | Throw e => Throw e
  | OutOfFuel => OutOfFuel
  end.

#[global] Instance outcome_mbind : MBind outcome := @outcome_bind.
#[global] Instance outcome_mret : MRet outcome := @Ok.

(** Left-to-right loop over a list whose body may throw. *)
Fixpoint foldlM {A B : Type} (f : A → B → outcome A) (a : A) (l : list B) : outcome A :=
  match l with
  | [] => Ok a
  | b :: l' => a' ← f a b; foldlM f a' l'
  end.

(** ** JavaScript numbers and arrays *)

Inductive number : Type :=
  | Undefined
  | NaN
  | Num (q : Q).

(** [a <= b] and [a > b]: false as soon as one side is not a finite number. *)
Definition js_le (a b : number) : bool :=
  match a, b with
  | Num x, Num y => Qle_bool x y
  | _, _ => false
  end.

Definition js_gt (a b : number) : bool :=
  match a, b with
  | Num x, Num y => negb (Qle_bool x y)
  | _, _ => false
  end.

Definition js_add (a b : number) : number :=
  match a, b with
  | Num x, Num y => Num (x + y)
  | _, _ => NaN
  end.

Definition js_div (a b : number) : number :=
  match a, b with
  | Num x, Num y => Num (x / y)
  | _, _ => NaN
  end.

Definition Math_min (a b : number) : number :=
  match a, b with
  | Num x, Num y => Num (if Qle_bool x y then x else y)
  | _, _ => NaN
  end.

Definition Math_max (a b : number) : number :=
  match a, b with
  | Num x, Num y => Num (if Qle_bool x y then y else x)
  | _, _ => NaN
  end.

(** [Math.round]: the nearest integer, ties towards plus infinity. *)
Definition Math_round (x : Q) : Z := Qfloor (x + (1 # 2)).

(** [Number.MIN_VALUE] is the smallest positive double, [Number.MAX_VALUE]
    the largest finite one. *)
Definition MIN_VALUE : Q := Qpower 2 (-1074).
Definition MAX_VALUE : Q := inject_Z ((2 ^ 53 - 1) * 2 ^ 971).

(** [a[i]] for a numeric index: [None] stands for [undefined]. *)
Definition index {A : Type} (a : list A) (i : Z) : option A :=
  if (i <? 0)%Z then None else a !! Z.to_nat i.

Definition at_ (values : list Q) (i : Z) : number :=
  from_option Num Undefined (index values i).

Definition len {A : Type} (a : list A) : Z := Z.of_nat (length a).

(** [a.slice(start, end)]: negative positions count from the end, and both
    are clamped to the array. *)
Definition Array_slice {A : Type} (a : list A) (start end_ : Z) : list A :=
  let clamp (k : Z) := if (k <? 0)%Z then Z.max (len a + k) 0 else Z.min k (len a) in
  take (Z.to_nat (clamp end_ - clamp start)) (drop (Z.to_nat (clamp start)) a).

(** [a.sort(compare)] is a stable sort.  [le x y] says that
    [compare(x, y) <= 0].  Any stable sort returns the same array for a
    comparator that is a total preorder; this one inserts each element in
    front of the first element that is not smaller. *)
Section Sort.
Context {A : Type} (le : A → A → bool).

Fixpoint insert_sorted (x : A) (l : list A) : list A :=
  match l with
  | [] => [x]
  | y :: l' => if le x y then x :: l else y :: insert_sorted x l'
  end.

Definition Array_sort (l : list A) : list A := foldr insert_sorted [] l.
End Sort.

(** ** Data model *)

Abbreviation ref := nat (only parsing).
Abbreviation loc := nat (only parsing).

Record IProject : Type := {
  startYear : Z;
  totalAmount : Q
}.

Record SubBucket : Type := {
  sb_group : string;
  sb_min : number;
  sb_max : number
}.

Record IBucket : Type := {
  bucket_min : number;
  bucket_max : number;
  subBuckets : gmap string SubBucket
}.

Record IGroup : Type := {
  name : string;
  description : string;
  separator : bool;
  percentage : Q;
  from : number;
  to : number
}.

Record TwoThird : Type := {
  tt_min : number;
  tt_max : number
}.

Record IProjectResult : Type := {
  res_min : number;
  res_max : number;
  res_median : number;
  twoThird : TwoThird;
  buckets : list IBucket;
  groups : list IGroup;
  project : ref
}.

Record IMonteCarloEnvironment : Type := {
  env_investmentAmount : Q;
  env_liquidity : Q;
  noInterestReferenceLine : list number;
  env_numRuns : Z;
  env_numYears : Z;
  projectsByStartYear : gmap Z (list ref);
  simulatedValues : list (list Q)
}.

(** The caller's options object: every property may be absent (the
    interface marks [volatility] as required, nothing checks it at run
    time). *)
Record IMonteCarloSimulationOptions : Type := {
  opt_numYears : option Z;
  opt_numRuns : option Z;
  opt_projects : option loc;
  opt_investmentAmount : option Q;
  opt_performance : option Q;
  opt_seed : option Q;
  opt_volatility : option Q;
  opt_liquidity : option Q
}.

Record IInitializedMonteCarloSimulationOptions : Type := {
  numYears : Z;
  numRuns : Z;
  projects : loc;
  investmentAmount : Q;
  performance : Q;
  seed : option Q;
  taskIndex : option Z;
  valuesPerWorker : option Z;
  liquidity : Q;
  volatility : Q
}.

(** The store: the contents of every array of projects, by address. *)
Abbreviation Store := (gmap nat (list nat)) (only parsing).

Definition read (σ : Store) (l : loc) : list ref := default [] (σ !! l).

(** The lengths that [new Array(n)] accepts: the integers from 0 to
    2^32 - 1. *)
Definition arrayLength (n : Z) : Prop := (0 <= n <= 4294967295)%Z.

(** [new Array(n)] raises a RangeError for any other length. *)
Definition new_Array (n : Z) : outcome nat :=
  if (n <? 0)%Z || (4294967295 <? n)%Z then Throw RangeError else Ok (Z.to_nat n).

(** ** Option initialization *)

(** [Object.assign({}, defaults, options)]: a property of [options]
    replaces the default, and [projects] keeps pointing to the caller's
    array.  The array literal of the defaults is allocated on every call. *)
Definition initializeOptions (options : option IMonteCarloSimulationOptions) (σ : Store)
  : IInitializedMonteCarloSimulationOptions * Store :=
  let empty_array := fresh (dom σ) in
  let given {A : Type} (property : IMonteCarloSimulationOptions → option A) : option A :=
    options ≫= property in
  ({| investmentAmount := default 1000000%Q (given opt_investmentAmount);
      liquidity := default 10000%Q (given opt_liquidity);
      numRuns := default 10000%Z (given opt_numRuns);
      numYears := default 10%Z (given opt_numYears);
      performance := default 0%Q (given opt_performance);
      projects := default empty_array (given opt_projects);
      seed := given opt_seed;
      taskIndex := None;
      valuesPerWorker := None;
      volatility := default (1 # 100)%Q (given opt_volatility) |},
   <[empty_array := []]> σ).

(** ** Environment construction, aggregation and the synchronous driver *)

Section MonteCarlo.
(** The project objects, by reference: they are never written. *)
Variable deref : ref → IProject.
(** The draws of [new Random(10)]. *)
Variable random : nat → Q → Q → Q.

(** [projects.sort((a, b) => a.startYear - b.startYear)] *)
Definition byStartYear (a b : ref) : bool :=
  (startYear (deref a) <=? startYear (deref b))%Z.

(** lodash [groupBy(projects, project => project.startYear)]: each
    project is appended to the array stored under its key. *)
Definition groupBy (projects : list ref) : gmap Z (list ref) :=
  foldl (λ result project,
           let key := startYear (deref project) in
           <[key := default [] (result !! key) ++ [project]]> result)
        ∅ projects.

Definition projectsToCashFlows (projectsByStartYear : gmap Z (list ref)) (numYears : Z)
  : list Q :=
  (λ year : nat,
     let projectsByThisYear := default [] (projectsByStartYear !! Z.of_nat year) in
     - foldl (λ memo project, memo + totalAmount (deref project)) 0 projectsByThisYear)%Q
  <$> seq 0 (Z.to_nat numYears).

Fixpoint noInterestLoop (cashFlows : list Q) (investmentAmountLeft : number)
    (years : list nat) : list number :=
  match years with
  | [] => []
  | year :: years' =>
      let investmentAmountLeft' :=
        js_add investmentAmountLeft (at_ cashFlows (Z.of_nat year)) in
      investmentAmountLeft' :: noInterestLoop cashFlows investmentAmountLeft' years'
  end.

Definition calculateNoInterestReferenceLine (cashFlows : list Q) (investmentAmount : Q)
    (numYears : Z) : list number :=
  noInterestLoop cashFlows (Num investmentAmount) (seq 0 (Z.to_nat numYears)).

(** The loop of [toAbsoluteIndices] over the years that are left.
    [cashFlows[relativeYear - 1]] is in range at the only call, where
    [indices] has one entry more than [cashFlows].  The division is that
    of [Q]: it stands for the division of the program as long as the index
    of the previous year is not 0. *)
Fixpoint toAbsoluteLoop (cashFlows : list Q) (relativeYear : nat) (indices : list Q)
    (currentPortfolioValue previousYearIndex : Q) : list Q :=
  match indices with
  | [] => []
  | currentYearIndex :: indices' =>
      let cashFlowStartOfYear :=
        match relativeYear with
        | O => 0%Q
        | S previousYear => default 0%Q (cashFlows !! previousYear)
        end in
      let performance := (currentYearIndex / previousYearIndex)%Q in
      let currentPortfolioValue' :=
        ((currentPortfolioValue + cashFlowStartOfYear) * performance)%Q in
      inject_Z (Math_round currentPortfolioValue')
      :: toAbsoluteLoop cashFlows (S relativeYear) indices'
           currentPortfolioValue' currentYearIndex
  end.

Definition toAbsoluteIndices (indices : list Q) (investmentAmount : Q)
    (cashFlows : list Q) : list Q :=
  toAbsoluteLoop cashFlows 0 indices investmentAmount 100.

(** The [years] indices pushed after [previous]; [calls] counts the draws
    made so far. *)
Fixpoint relativeIndices (performance volatility : Q) (calls years : nat)
    (previous : Q) : list Q :=
  match years with
  | O => []
  | S years' =>
      let randomPerformance := (1 + random calls performance volatility)%Q in
      let next := (previous * randomPerformance)%Q in
      next :: relativeIndices performance volatility (S calls) years' next
  end.

(** The paths of the runs that are left, one list of [numYears + 1]
    absolute values per run. *)
Fixpoint simulateRuns (cashFlows : list Q) (investmentAmount performance volatility : Q)
    (numYears : nat) (runs calls : nat) : list (list Q) :=
  match runs with
  | O => []
  | S runs' =>
      let indices := 100%Q :: relativeIndices performance volatility calls numYears 100 in
      toAbsoluteIndices indices investmentAmount cashFlows
      :: simulateRuns cashFlows investmentAmount performance volatility numYears
           runs' (calls + numYears)
  end.

(** [result[year][run] = indices[year]]: row [year] collects, run after
    run, the entry [year] of each path. *)
Definition simulateOutcomes (cashFlows : list Q) (investmentAmount : Q)
    (options : IInitializedMonteCarloSimulationOptions) : outcome (list (list Q)) :=
  years ← new_Array (numYears options);
  runs ← new_Array (numRuns options);
  let paths :=
    simulateRuns cashFlows investmentAmount (performance options) (volatility options)
      years runs 0 in
  Ok ((λ year : nat, omap (λ indices : list Q, indices !! year) paths)
      <$> seq 0 (S years)).

Definition truthy (x : option Z) : bool :=
  match x with
  | Some n => negb (n =? 0)%Z
  | None => false
  end.

Definition createMonteCarloEnvironment (options : IInitializedMonteCarloSimulationOptions)
    (σ : Store) : outcome (IMonteCarloEnvironment * Store) :=
  (* projectsToSimulate is the caller's array, or a fresh slice of it *)
  let '(projectsToSimulate, σ1) :=
    if truthy (taskIndex options) && truthy (valuesPerWorker options) then
      let taskIndex := default 0%Z (taskIndex options) in
      let valuesPerWorker := default 0%Z (valuesPerWorker options) in
      let slice := fresh (dom σ) in
      (slice,
       <[slice := Array_slice (read σ (projects options))
                    (taskIndex * valuesPerWorker) ((taskIndex + 1) * valuesPerWorker)]> σ)
    else (projects options, σ) in
  (* sort() writes the sorted contents back to the array it is called on *)
  let σ2 := <[projects options := Array_sort byStartYear (read σ1 (projects options))]> σ1 in
  let projects := read σ2 (projects options) in
  let projectsByStartYear := groupBy projects in
  let cashFlows := projectsToCashFlows projectsByStartYear (numYears options) in
  let noInterestReferenceLine :=
    calculateNoInterestReferenceLine cashFlows (investmentAmount options) (numYears options) in
  let numYears :=
    foldl (λ memo project, Z.max memo (startYear (deref project))) 0%Z
      (read σ2 projectsToSimulate) in
  simulatedValues ← simulateOutcomes cashFlows (investmentAmount options) options;
  Ok ({| env_investmentAmount := investmentAmount options;
         env_liquidity := liquidity options;
         noInterestReferenceLine := noInterestReferenceLine;
         env_numRuns := numRuns options;
         env_numYears := numYears;
         projectsByStartYear := projectsByStartYear;
         simulatedValues := simulatedValues |}, σ2).

(** ** Aggregation of one project *)

Definition inGroup (value : number) (group : IGroup) : bool :=
  (match from group with Undefined => true | lower => js_le lower value end)
  && (match to group with Undefined => true | upper => js_gt upper value end).

Definition groupForValue (value : number) (groups : list IGroup) : option IGroup :=
  List.find (inGroup value) groups.

Definition createGroups (requiredAmount : Q) (noInterestReference : number)
    (liquidity : Q) : list IGroup :=
  [ {| description := "Ziel erreichbar"; from := Num requiredAmount; name := "green";
       percentage := 0; separator := true; to := Undefined |};
    {| description := "mit Zusatzliquidität erreichbar";
       from := Num (requiredAmount - liquidity); name := "yellow";
       percentage := 0; separator := true; to := Num requiredAmount |};
    {| description := "nicht erreichbar"; from := noInterestReference; name := "gray";
       percentage := 0; separator := false; to := Num (requiredAmount - liquidity) |};
    {| description := "nicht erreichbar, mit Verlust"; from := Undefined; name := "red";
       percentage := 0; separator := false; to := noInterestReference |} ].

(** The loop of [calculateRequiredAmount], which stops at the project
    itself. *)
Fixpoint sumEarlier (project : ref) (projectsSameYear : list ref) (amount : Q) : Q :=
  match projectsSameYear with
  | [] => amount
  | otherProject :: rest =>
      if decide (otherProject = project) then amount
      else sumEarlier project rest (amount + totalAmount (deref otherProject))%Q
  end.

(** Iterating over [undefined] raises a TypeError. *)
Definition calculateRequiredAmount (project : ref)
    (projectsByStartYear : gmap Z (list ref)) : outcome Q :=
  match projectsByStartYear !! startYear (deref project) with
  | None => Throw TypeError
  | Some projectsSameYear =>
      Ok (sumEarlier project projectsSameYear (totalAmount (deref project)))
  end.

(** The sum of the two middle values is that of [Q]: it stands for the
    sum of the program as long as it stays within [Number.MAX_VALUE]. *)
Definition median (values : list Q) : number :=
  let half := (len values / 2)%Z in
  if negb (len values mod 2 =? 0)%Z then at_ values half
  else js_div (js_add (at_ values (half - 1)) (at_ values half)) (Num 2).

(** The body of the inner loop of [calculateProject] for position [j].
    When no group matches, [group.name] raises a TypeError. *)
Definition bucketStep (values : list Q) (groups : list IGroup)
    (state : IBucket * gmap string Z) (j : Z) : outcome (IBucket * gmap string Z) :=
  let '(bucket, valuesByGroup) := state in
  let value := at_ values j in
  let bucket_min' := Math_min (bucket_min bucket) value in
  let bucket_max' := Math_max (bucket_max bucket) value in
  match groupForValue value groups with
  | None => Throw TypeError
  | Some group =>
      let valuesByGroup' :=
        <[name group := (default 0 (valuesByGroup !! name group) + 1)%Z]> valuesByGroup in
      let subBucket :=
        default {| sb_group := name group; sb_max := Num MIN_VALUE; sb_min := Num MAX_VALUE |}
                (subBuckets bucket !! name group) in
      let subBucket' :=
        {| sb_group := sb_group subBucket;
           sb_min := Math_min (sb_min subBucket) value;
           sb_max := Math_max (sb_max subBucket) value |} in
      Ok ({| bucket_min := bucket_min'; bucket_max := bucket_max';
             subBuckets := <[name group := subBucket']> (subBuckets bucket) |},
          valuesByGroup')
  end.

(** [for (let i = ...; i < values.length; i += bucketSize)]: one unit of
    fuel per iteration; the inner loop visits [i, i + 1, ..., i +
    bucketSize - 1]. *)
Fixpoint bucketLoop (fuel : nat) (values : list Q) (groups : list IGroup)
    (bucketSize i : Z) (buckets : list IBucket) (valuesByGroup : gmap string Z)
    : outcome (list IBucket * gmap string Z) :=
  if negb (i <? len values)%Z then Ok (buckets, valuesByGroup)
  else
    match fuel with
    | O => OutOfFuel
    | S fuel' =>
        let bucket :=
          {| bucket_max := Num MIN_VALUE; bucket_min := Num MAX_VALUE; subBuckets := ∅ |} in
        '(bucket', valuesByGroup') ←
          foldlM (bucketStep values groups) (bucket, valuesByGroup)
            (seqZ i bucketSize);
        bucketLoop fuel' values groups bucketSize (i + bucketSize)%Z
          (buckets ++ [bucket']) valuesByGroup'
    end.

Definition NUMBER_OF_BUCKETS : Q := 10.

(** The environment after [simulatedValues[year].sort(...)]: the row is
    overwritten by its sorted contents, nothing else is written. *)
Definition withSortedRow (environment : IMonteCarloEnvironment) (year : Z)
    (sorted : list Q) : IMonteCarloEnvironment :=
  {| env_investmentAmount := env_investmentAmount environment;
     env_liquidity := env_liquidity environment;
     noInterestReferenceLine := noInterestReferenceLine environment;
     env_numRuns := env_numRuns environment;
     env_numYears := env_numYears environment;
     projectsByStartYear := projectsByStartYear environment;
     simulatedValues := <[Z.to_nat year := sorted]> (simulatedValues environment) |}.

(** [calculateProject] returns its result together with the environment
    as it leaves it: the row of the project's year is sorted in place.
    Calling [sort] on [undefined] raises a TypeError. *)
Definition calculateProject (fuel : nat) (project : ref)
    (environment : IMonteCarloEnvironment)
    : outcome (IProjectResult * IMonteCarloEnvironment) :=
  let year := startYear (deref project) in
  requiredAmount ← calculateRequiredAmount project (projectsByStartYear environment);
  match index (simulatedValues environment) year with
  | None => Throw TypeError
  | Some unsorted =>
      let simulatedValuesThisYear := Array_sort Qle_bool unsorted in
      let environment' := withSortedRow environment year simulatedValuesThisYear in
      let groups :=
        createGroups requiredAmount
          (default Undefined (index (noInterestReferenceLine environment) year))
          (env_liquidity environment) in
      let bucketSize :=
        Math_round (inject_Z (len simulatedValuesThisYear) / NUMBER_OF_BUCKETS) in
      '(buckets, valuesByGroup) ←
        bucketLoop fuel simulatedValuesThisYear groups bucketSize 0 [] ∅;
      let nonEmptyGroups :=
        List.filter (λ group,
                       match valuesByGroup !! name group with
                       | Some count => negb (count =? 0)%Z
                       | None => false
                       end) groups in
      let withPercentage (group : IGroup) :=
        {| name := name group; description := description group;
           separator := separator group;
           percentage := inject_Z (default 0%Z (valuesByGroup !! name group))
                         / inject_Z (len simulatedValuesThisYear);
           from := from group; to := to group |} in
      let oneSixth := Math_round (inject_Z (len simulatedValuesThisYear) / 6) in
      Ok ({| buckets := buckets;
             groups := withPercentage <$> nonEmptyGroups;
             res_max := at_ simulatedValuesThisYear (len simulatedValuesThisYear - 1);
             res_median := median simulatedValuesThisYear;
             res_min := at_ simulatedValuesThisYear 0;
             project := project;
             twoThird :=
               {| tt_max := at_ simulatedValuesThisYear
                              (len simulatedValuesThisYear - oneSixth);
                  tt_min := at_ simulatedValuesThisYear oneSixth |} |},
          environment')
  end.

(** ** The synchronous driver *)

(** The loop of [syncMonteCarlo]: every call works on the environment
    left by the previous one. *)
Fixpoint calculateProjects (fuel : nat) (projects : list ref)
    (environment : IMonteCarloEnvironment) (results : list IProjectResult)
    : outcome (list IProjectResult * IMonteCarloEnvironment) :=
  match projects with
  | [] => Ok (results, environment)
  | project :: projects' =>
      '(result, environment') ← calculateProject fuel project environment;
      calculateProjects fuel projects' environment' (results ++ [result])
  end.

(** [options!.projects!] is read from the caller's object after the
    environment was built; iterating over [undefined] raises a
    TypeError. *)
Definition syncMonteCarlo (fuel : nat) (options : option IMonteCarloSimulationOptions)
    (σ : Store) : outcome (list IProjectResult * Store) :=
  let '(initialized, σ1) := initializeOptions options σ in
  '(environment, σ2) ← createMonteCarloEnvironment initialized σ1;
  match options ≫= opt_projects with
  | None => Throw TypeError
  | Some projects =>
      '(results, _) ← calculateProjects fuel (read σ2 projects) environment [];
      Ok (results, σ2)
  end.
End MonteCarlo.

(** ** Vocabulary of the properties *)

Section Vocabulary.
Variable deref : ref → IProject.

(** The projects of [projects] that start in [year], in their order. *)
Definition startingIn (year : Z) (projects : list ref) : list ref :=
  filter (λ p, startYear (deref p) = year) projects.

(** The entries of [projects] in front of the first occurrence of [p]. *)
Fixpoint before (p : ref) (projects : list ref) : list ref :=
  match projects with
  | [] => []
  | other :: rest => if decide (other = p) then [] else other :: before p rest
  end.

Definition sumQ (l : list Q) : Q := foldr Qplus 0%Q l.

Definition amounts (projects : list ref) : list Q :=
  (λ p, totalAmount (deref p)) <$> projects.

(** What the projects of [input] that start in [year] draw in total. *)
Definition outflow (input : list ref) (year : nat) : Q :=
  sumQ (amounts (startingIn (Z.of_nat year) input)).
End Vocabulary.

(** The bands of [groups] that contain [value]. *)
Definition bandsContaining (value : number) (groups : list IGroup) : list IGroup :=
  List.filter (inGroup value) groups.

Definition ascending (values : list Q) : Prop :=
  StronglySorted (λ x y, Qle_bool x y = true) values.

(** Five finite numbers in non-decreasing order. *)
Definition chain (a b c d e : number) : Prop :=
  ∃ qa qb qc qd qe,
    a = Num qa ∧ b = Num qb ∧ c = Num qc ∧ d = Num qd ∧ e = Num qe
    ∧ (qa <= qb)%Q ∧ (qb <= qc)%Q ∧ (qc <= qd)%Q ∧ (qd <= qe)%Q.

Definition orderingChain (result : IProjectResult) : Prop :=
  chain (res_min result) (tt_min (twoThird result)) (res_median result)
        (tt_max (twoThird result)) (res_max result).

(** [initializeOptions] supplies [d] for a property that the caller left
    out. *)
Definition suppliesDefault {A : Type} (property : IMonteCarloSimulationOptions → option A)
    (field : IInitializedMonteCarloSimulationOptions → A) (d : A) : Prop :=
  ∀ options σ, options ≫= property = None → field (initializeOptions options σ).1 = d.

(** A property that the caller supplies wins over the default. *)
Definition keepsSupplied {A : Type} (property : IMonteCarloSimulationOptions → option A)
    (field : IInitializedMonteCarloSimulationOptions → A) : Prop :=
  ∀ options σ v, options ≫= property = Some v → field (initializeOptions options σ).1 = v.

(** The largest start year of [projects], 0 when there is none: the
    [reduce] that computes the [numYears] field of the environment. *)
Definition largestStartYear (deref : ref → IProject) (projects : list ref) : Z :=
  foldl (λ memo p, Z.max memo (startYear (deref p))) 0%Z projects.

(** No partition is given: [taskIndex && valuesPerWorker] is falsy. *)
Definition unpartitioned (options : IInitializedMonteCarloSimulationOptions) : Prop :=
  truthy (taskIndex options) && truthy (valuesPerWorker options) = false.

(** The numbers of values that the strides of the bucket loop cover
    exactly: the bucket size [Math.round(n / 10)] is not 0 and divides
    [n]. *)
Definition fullBuckets (n : Z) : Prop :=
  (5 <= n)%Z ∧ (n mod ((n + 5) / 10) = 0)%Z.

(** What [calculateProject] needs from the environment for a project: its
    year has a group and a row, and the reference line is not NaN there. *)
Definition ready (deref : ref → IProject) (environment : IMonteCarloEnvironment)
    (p : ref) : Prop :=
  let year := startYear (deref p) in
  is_Some (projectsByStartYear environment !! year)
  ∧ (0 <= year < len (simulatedValues environment))%Z
  ∧ default Undefined (index (noInterestReferenceLine environment) year) ≠ NaN.

(** The numbers of which two can be added without leaving the range of
    the doubles: those between [-Number.MAX_VALUE / 2] and
    [Number.MAX_VALUE / 2]. *)
Definition addable (value : Q) : Prop :=
  (- (MAX_VALUE / 2) <= value <= MAX_VALUE / 2)%Q.

(** ** Concrete inputs *)

(** A generator whose draws cycle through [mu - sigma], [mu], [mu + sigma]. *)
Definition cyclicRandom (call : nat) (mu sigma : Q) : Q :=
  (mu + sigma * (inject_Z (Z.of_nat call mod 3) - 1))%Q.

(** Scenario A: a single project of 100000 that starts in year 0. *)
Definition scenarioA (r : ref) : IProject :=
  {| startYear := 0; totalAmount := 100000 |}.

(** Scenario B: two projects in year 0, 50000 (reference 0) and 30000
    (reference 1). *)
Definition scenarioB (r : ref) : IProject :=
  match r with
  | O => {| startYear := 0; totalAmount := 50000 |}
  | _ => {| startYear := 0; totalAmount := 30000 |}
  end.

(** Reference 0 starts in year 1, every other reference in year 0. *)
Definition lateFirst (r : ref) : IProject :=
  match r with
  | O => {| startYear := 1; totalAmount := 20000 |}
  | _ => {| startYear := 0; totalAmount := 10000 |}
  end.

(** An options object with [projects], [numYears] and [numRuns] only. *)
Definition optionsWith (projects : loc) (numYears numRuns : Z)
  : IMonteCarloSimulationOptions :=
  {| opt_numYears := Some numYears; opt_numRuns := Some numRuns;
     opt_projects := Some projects; opt_investmentAmount := None;
     opt_performance := None; opt_seed := None; opt_volatility := None;
     opt_liquidity := None |}.

(** An options object without any property. *)
Definition noProperties : IMonteCarloSimulationOptions :=
  {| opt_numYears := None; opt_numRuns := None; opt_projects := None;
     opt_investmentAmount := None; opt_performance := None; opt_seed := None;
     opt_volatility := None; opt_liquidity := None |}.

(** The store of a caller whose array, at address 0, holds the project
    with reference 0. *)
Definition oneProject : Store := {[ 0 := [0] ]}.

(** The store of a caller whose array, at address 0, holds reference 0 and
    then reference 1. *)
Definition twoProjects : Store := {[ 0 := [0; 1] ]}.

(** The environment that [syncMonteCarlo] builds for [options], with the
    draws of [cyclicRandom]. *)
Definition builtFor (deref : ref → IProject) (options : IMonteCarloSimulationOptions)
    (σ : Store) : option IMonteCarloEnvironment :=
  let '(initialized, σ1) := initializeOptions (Some options) σ in
  match createMonteCarloEnvironment deref cyclicRandom initialized σ1 with
  | Ok (environment, _) => Some environment
  | _ => None
  end.

(** ** Vocabulary of the aggregation and of the simulation *)

(** The result of a call, without the environment that it leaves. *)
Definition onlyResult {A B : Type} (o : outcome (A * B)) : outcome A :=
  match o with
  | Ok (a, _) => Ok a
  | Throw e => Throw e
  | OutOfFuel => OutOfFuel
  end.

(** Two environments that agree on every field, and on every row of
    simulated values once the row is sorted. *)
Definition sameStatistics (e1 e2 : IMonteCarloEnvironment) : Prop :=
  env_investmentAmount e1 = env_investmentAmount e2
  ∧ env_liquidity e1 = env_liquidity e2
  ∧ noInterestReferenceLine e1 = noInterestReferenceLine e2
  ∧ env_numRuns e1 = env_numRuns e2
  ∧ env_numYears e1 = env_numYears e2
  ∧ projectsByStartYear e1 = projectsByStartYear e2
  ∧ Array_sort Qle_bool <$> simulatedValues e1 = Array_sort Qle_bool <$> simulatedValues e2.

(** The name of the band that [groupForValue] finds for [value]. *)
Definition bandOf (bands : list IGroup) (value : Q) : option string :=
  name <$> groupForValue (Num value) bands.

(** The values of [chunk] for which [groupForValue] finds [band]. *)
Definition chunkOf (bands : list IGroup) (band : string) (chunk : list Q) : list Q :=
  filter (λ value, bandOf bands value = Some band) chunk.

(** How many of [values] [groupForValue] puts into [band]. *)
Definition tally (bands : list IGroup) (band : string) (values : list Q) : Z :=
  len (chunkOf bands band values).

(** [bucket.min] and [bucket.max] after the inner loop has gone through
    [chunk], starting from [Number.MAX_VALUE] and [Number.MIN_VALUE]. *)
Definition chunkMin (chunk : list Q) : number := foldl Math_min (Num MAX_VALUE) (Num <$> chunk).
Definition chunkMax (chunk : list Q) : number := foldl Math_max (Num MIN_VALUE) (Num <$> chunk).

(** [!!valuesByGroup[group.name]] once all of [values] are counted. *)
Definition occupied (bands : list IGroup) (values : list Q) (group : IGroup) : bool :=
  negb (tally bands (name group) values =? 0)%Z.

(** The band [group] with the share of [values] that fall into it as its
    percentage. *)
Definition shareOf (bands : list IGroup) (values : list Q) (group : IGroup) : IGroup :=
  {| name := name group; description := description group; separator := separator group;
     percentage := inject_Z (tally bands (name group) values) / inject_Z (len values);
     from := from group; to := to group |}.

(** The sub-bucket that the inner loop creates for a band. *)
Definition emptySubBucket (band : string) : SubBucket :=
  {| sb_group := band; sb_max := Num MIN_VALUE; sb_min := Num MAX_VALUE |}.

(** [subBucket.min = Math.min(subBucket.min, value)], and the same for
    [max]. *)
Definition widen (subBucket : SubBucket) (value : Q) : SubBucket :=
  {| sb_group := sb_group subBucket;
     sb_min := Math_min (sb_min subBucket) (Num value);
     sb_max := Math_max (sb_max subBucket) (Num value) |}.

(** The entry of a band in [bucket.subBuckets] after [values] of that
    band have been added to the entry [found]. *)
Definition gather (band : string) (found : option SubBucket) (values : list Q)
  : option SubBucket :=
  foldl (λ found value, Some (widen (default (emptySubBucket band) found) value)) found values.

(** The sub-bucket of [band] in a bucket whose values of that band are
    [values]: none when there is no such value. *)
Definition subBucketOf (band : string) (values : list Q) : option SubBucket :=
  match values with
  | [] => None
  | _ => Some {| sb_group := band; sb_min := chunkMin values; sb_max := chunkMax values |}
  end.

(** The same options without [taskIndex] and [valuesPerWorker]. *)
Definition withoutPartition (options : IInitializedMonteCarloSimulationOptions)
  : IInitializedMonteCarloSimulationOptions :=
  {| numYears := numYears options; numRuns := numRuns options; projects := projects options;
     investmentAmount := investmentAmount options; performance := performance options;
     seed := seed options; taskIndex := None; valuesPerWorker := None;
     liquidity := liquidity options; volatility := volatility options |}.

(** ** More concrete inputs *)


(** Two years, five runs and a volatility of 0. *)
Definition steady : IMonteCarloSimulationOptions :=
  {| opt_numYears := Some 2%Z; opt_numRuns := Some 5%Z; opt_projects := Some 0;
     opt_investmentAmount := None; opt_performance := None; opt_seed := None;
     opt_volatility := Some 0%Q; opt_liquidity := None |}.

(** The options of the worker that is given the second project of the
    array at address 0: two years, five runs, one value per worker. *)
Definition secondWorker : IInitializedMonteCarloSimulationOptions :=
  {| numYears := 2; numRuns := 5; projects := 0; investmentAmount := 1000000;
     performance := 0; seed := None; taskIndex := Some 1%Z; valuesPerWorker := Some 1%Z;
     liquidity := 10000; volatility := 1 # 100 |}.


(** * Properties *)

Ltac divlia := Z.to_euclidean_division_equations; lia.

Lemma Qle_bool_false (x y : Q) : Qle_bool x y = false ↔ (y < x)%Q.
Proof.
  rewrite <- not_true_iff_false, Qle_bool_iff.
  split; [apply Qnot_le_lt | apply Qlt_not_le].
Qed.

(** Case analysis on every comparison of rationals in sight. *)
Ltac Qbool :=
  repeat match goal with
    | |- context [Qle_bool ?x ?y] =>
        let E := fresh "E" in
        destruct (Qle_bool x y) eqn:E;
        [apply Qle_bool_iff in E | apply Qle_bool_false in E]
    | H : context [Qle_bool ?x ?y] |- _ =>
        let E := fresh "E" in
        destruct (Qle_bool x y) eqn:E;
        [apply Qle_bool_iff in E | apply Qle_bool_false in E]
    end.

(** ** Sorting *)

Section SortFacts.
Context {A : Type} (le : A → A → bool).

Lemma insert_sorted_Permutation x l : insert_sorted le x l ≡ₚ x :: l.
Proof.
  induction l as [|y l IH]; simpl; [done|].
  destruct (le x y); [done|]. rewrite IH. apply Permutation_swap.
Qed.

Lemma Array_sort_Permutation l : Array_sort le l ≡ₚ l.
Proof.
  induction l as [|x l IH]; simpl; [done|].
  rewrite insert_sorted_Permutation. by rewrite IH.
Qed.

Lemma Array_sort_length l : length (Array_sort le l) = length l.
Proof. by rewrite Array_sort_Permutation. Qed.

Hypothesis le_total : ∀ x y, le x y = false → le y x = true.
Hypothesis le_trans : ∀ x y z, le x y = true → le y z = true → le x z = true.

Lemma insert_sorted_StronglySorted x l :
  StronglySorted (λ x y, le x y = true) l →
  StronglySorted (λ x y, le x y = true) (insert_sorted le x l).
Proof.
  induction 1 as [|y l Hl IH Hy]; simpl.
  - repeat constructor.
  - destruct (le x y) eqn:Hxy.
    + constructor; [by constructor|].
      constructor; [done|].
      eapply Forall_impl; [exact Hy|]. intros z Hz. by eapply le_trans.
    + constructor; [done|].
      rewrite insert_sorted_Permutation. constructor; [|done].
      by apply le_total.
Qed.

Lemma Array_sort_StronglySorted l :
  StronglySorted (λ x y, le x y = true) (Array_sort le l).
Proof.
  induction l; simpl; [constructor|]. by apply insert_sorted_StronglySorted.
Qed.

(** Sorting a sorted array changes nothing, so a row that was sorted by
    an earlier call is left as it is. *)
Lemma Array_sort_sorted_id l :
  StronglySorted (λ x y, le x y = true) l → Array_sort le l = l.
Proof.
  induction 1 as [|y l Hl IH Hy]; simpl; [done|].
  rewrite IH. destruct Hy as [|z l Hz _]; simpl; [done|]. by rewrite Hz.
Qed.

Lemma Array_sort_idempotent l : Array_sort le (Array_sort le l) = Array_sort le l.
Proof. apply Array_sort_sorted_id, Array_sort_StronglySorted. Qed.
End SortFacts.

Lemma Array_sort_ascending (row : list Q) : ascending (Array_sort Qle_bool row).
Proof.
  apply Array_sort_StronglySorted.
  - intros x y Hxy. apply Qle_bool_false in Hxy. apply Qle_bool_iff. lra.
  - intros x y z Hxy Hyz. apply Qle_bool_iff in Hxy, Hyz. apply Qle_bool_iff. lra.
Qed.

Lemma ascending_lookup (values : list Q) (i j : nat) (x y : Q) :
  ascending values → values !! i = Some x → values !! j = Some y → i ≤ j → (x <= y)%Q.
Proof.
  intros Hsorted. revert i j.
  induction Hsorted as [|z l Hl IH Hz]; intros i j Hi Hj Hij; [done|].
  destruct i as [|i], j as [|j]; simpl in *; try lia.
  - injection Hi as ->. injection Hj as ->. apply Qle_refl.
  - injection Hi as ->. apply Qle_bool_iff.
    rewrite Forall_forall in Hz. apply Hz. by eapply list_elem_of_lookup_2.
  - apply (IH i j); [done|done|lia].
Qed.

Lemma at_in_range (values : list Q) (i : Z) :
  (0 <= i < len values)%Z →
  ∃ v, at_ values i = Num v ∧ values !! Z.to_nat i = Some v.
Proof.
  intros Hi. unfold at_, index, len in *.
  destruct (Z.ltb_spec i 0); [lia|].
  destruct (lookup_lt_is_Some_2 values (Z.to_nat i)) as [v Hv]; [lia|].
  exists v. by rewrite Hv.
Qed.

Lemma at_ascending (values : list Q) (i j : Z) :
  ascending values → (0 <= i)%Z → (i <= j)%Z → (j < len values)%Z →
  ∃ x y, at_ values i = Num x ∧ at_ values j = Num y ∧ (x <= y)%Q.
Proof.
  intros Hsorted Hi Hij Hj.
  destruct (at_in_range values i) as (x & Hx & Hxl); [lia|].
  destruct (at_in_range values j) as (y & Hy & Hyl); [lia|].
  exists x, y. repeat split; [done..|].
  eapply ascending_lookup; eauto. lia.
Qed.

(** ** Rounding *)

Lemma Math_round_div (n : Z) (d : positive) :
  Math_round (inject_Z n / inject_Z (Z.pos d)) = ((2 * n + Z.pos d) / (2 * Z.pos d))%Z.
Proof.
  unfold Math_round.
  assert (inject_Z n / inject_Z (Z.pos d) + (1 # 2) == (2 * n + Z.pos d) # (2 * d))%Q as ->.
  { unfold Qeq, Qdiv, Qmult, Qplus, Qinv, inject_Z. simpl. nia. }
  reflexivity.
Qed.

Lemma bucketSize_spec (n : Z) :
  Math_round (inject_Z n / NUMBER_OF_BUCKETS) = ((n + 5) / 10)%Z.
Proof.
  unfold NUMBER_OF_BUCKETS. change 10%Q with (inject_Z (Z.pos 10)).
  rewrite Math_round_div.
  replace (2 * n + 10)%Z with (2 * (n + 5))%Z by lia.
  by rewrite Z.div_mul_cancel_l.
Qed.

Lemma oneSixth_spec (n : Z) : Math_round (inject_Z n / 6) = ((n + 3) / 6)%Z.
Proof.
  change 6%Q with (inject_Z (Z.pos 6)). rewrite Math_round_div.
  replace (2 * n + 6)%Z with (2 * (n + 3))%Z by lia.
  by rewrite Z.div_mul_cancel_l.
Qed.

(** ** Grouping by start year and the required amount *)

Section Grouping.
Variable deref : ref → IProject.

(** The sort is stable: the projects of one year keep their order. *)
Lemma startingIn_insert_sorted year p l :
  startingIn deref year (insert_sorted (byStartYear deref) p l)
  = startingIn deref year (p :: l).
Proof.
  unfold startingIn. induction l as [|other l IH]; simpl; [done|].
  unfold byStartYear at 1.
  destruct (Z.leb_spec (startYear (deref p)) (startYear (deref other))); [done|].
  rewrite filter_cons, IH, !filter_cons.
  repeat case_decide; try done; lia.
Qed.

Lemma startingIn_Array_sort year l :
  startingIn deref year (Array_sort (byStartYear deref) l) = startingIn deref year l.
Proof.
  induction l as [|p l IH]; simpl; [done|].
  rewrite startingIn_insert_sorted. unfold startingIn in *.
  by rewrite !filter_cons, IH.
Qed.

Lemma groupBy_foldl_lookup (l : list ref) (result : gmap Z (list ref)) (year : Z) :
  foldl (λ result p,
           let key := startYear (deref p) in
           <[key := default [] (result !! key) ++ [p]]> result) result l !! year
  = match startingIn deref year l with
    | [] => result !! year
    | found => Some (default [] (result !! year) ++ found)
    end.
Proof.
  revert result. unfold startingIn.
  induction l as [|p l IH]; intros result; simpl; [done|].
  rewrite IH, filter_cons. clear IH. case_decide as Hkey.
  - subst year. rewrite lookup_insert_eq. simpl.
    destruct (filter _ l); simpl; [done|]. by rewrite <- app_assoc.
  - by rewrite lookup_insert_ne.
Qed.

(** [groupBy] stores under each year the projects of that year, in their
    order, and has no entry for a year without projects. *)
Lemma groupBy_lookup l year :
  groupBy deref l !! year
  = match startingIn deref year l with [] => None | found => Some found end.
Proof. unfold groupBy. rewrite groupBy_foldl_lookup. by rewrite lookup_empty. Qed.

Lemma sumEarlier_startingIn p l amount :
  sumEarlier deref p (startingIn deref (startYear (deref p)) l) amount
  = foldl (λ memo other, memo + totalAmount (deref other))%Q amount
      (startingIn deref (startYear (deref p)) (before p l)).
Proof.
  revert amount. unfold startingIn.
  induction l as [|other l IH]; intros amount; simpl; [done|].
  rewrite filter_cons. destruct (decide (other = p)) as [->|Hne].
  - rewrite decide_True by done. simpl. by rewrite decide_True.
  - rewrite filter_cons. case_decide; simpl; [|done].
    rewrite decide_False by done. apply IH.
Qed.

Lemma foldl_amounts (l : list ref) (amount : Q) :
  (foldl (λ memo other, memo + totalAmount (deref other)) amount l
   == amount + sumQ (amounts deref l))%Q.
Proof.
  revert amount. induction l as [|p l IH]; intros amount; simpl.
  - lra.
  - rewrite IH. unfold sumQ, amounts. simpl. lra.
Qed.

(** On the grouping of the sorted input, [calculateRequiredAmount] adds to
    the project's own amount the amounts of the projects of its year that
    stand in front of it in the input. *)
Lemma calculateRequiredAmount_of_grouping (input : list ref) (p : ref) :
  p ∈ input →
  ∃ amount,
    calculateRequiredAmount deref p
      (groupBy deref (Array_sort (byStartYear deref) input)) = Ok amount
    ∧ (amount == totalAmount (deref p)
                 + sumQ (amounts deref (startingIn deref (startYear (deref p))
                                          (before p input))))%Q.
Proof.
  intros Hin. unfold calculateRequiredAmount.
  rewrite groupBy_lookup, startingIn_Array_sort.
  destruct (startingIn _ _ input) as [|first rest] eqn:Hgroup.
  - exfalso. assert (p ∈ startingIn deref (startYear (deref p)) input) as Hp.
    { unfold startingIn. by apply list_elem_of_filter. }
    rewrite Hgroup in Hp. by apply not_elem_of_nil in Hp.
  - eexists. split; [reflexivity|].
    rewrite <- Hgroup, sumEarlier_startingIn. apply foldl_amounts.
Qed.

(** ** The schedule: cash flows and the no-interest reference line *)

Lemma sumQ_app l1 l2 : (sumQ (l1 ++ l2) == sumQ l1 + sumQ l2)%Q.
Proof. induction l1 as [|x l1 IH]; simpl; [lra|]. rewrite IH. lra. Qed.

Lemma projectsToCashFlows_length m numYears :
  length (projectsToCashFlows deref m numYears) = Z.to_nat numYears.
Proof. unfold projectsToCashFlows. by rewrite length_fmap, length_seq. Qed.

Lemma projectsToCashFlows_lookup input numYears (year : nat) :
  (Z.of_nat year < numYears)%Z →
  ∃ cashFlow,
    projectsToCashFlows deref (groupBy deref input) numYears !! year = Some cashFlow
    ∧ (cashFlow == - outflow deref input year)%Q.
Proof.
  intros Hy. unfold projectsToCashFlows.
  rewrite list_lookup_fmap, lookup_seq_lt by lia. simpl.
  eexists. split; [reflexivity|].
  rewrite groupBy_lookup, foldl_amounts. unfold outflow.
  destruct (startingIn _ _ input); simpl; lra.
Qed.

Lemma calculateNoInterestReferenceLine_length cashFlows investmentAmount numYears :
  length (calculateNoInterestReferenceLine cashFlows investmentAmount numYears)
  = Z.to_nat numYears.
Proof.
  unfold calculateNoInterestReferenceLine.
  generalize (Num investmentAmount) as left, 0%nat as first.
  induction (Z.to_nat numYears) as [|n IH]; intros; simpl; [done|]. by rewrite IH.
Qed.

(** Entry [i] of the loop is the start balance plus the cash flows of the
    years up to [i]. *)
Lemma noInterestLoop_lookup cashFlows count first left i :
  i < count → first + count ≤ length cashFlows →
  ∃ balance,
    noInterestLoop cashFlows (Num left) (seq first count) !! i = Some (Num balance)
    ∧ (balance == left + sumQ (take (S i) (drop first cashFlows)))%Q.
Proof.
  revert first left i.
  induction count as [|count IH]; intros first left i Hi Hlen; [lia|].
  destruct (lookup_lt_is_Some_2 cashFlows first) as [cashFlow Hflow]; [lia|].
  assert (at_ cashFlows (Z.of_nat first) = Num cashFlow) as Hat.
  { unfold at_, index. destruct (Z.ltb_spec (Z.of_nat first) 0); [lia|].
    by rewrite Nat2Z.id, Hflow. }
  simpl. rewrite Hat. simpl. rewrite (drop_S _ _ _ Hflow).
  destruct i as [|i]; simpl.
  - eexists. split; [reflexivity|]. simpl. lra.
  - destruct (IH (S first) (left + cashFlow)%Q i) as (balance & Hlookup & Hbalance);
      [lia..|].
    exists balance. split; [done|]. rewrite Hbalance. simpl. lra.
Qed.

Lemma cashFlows_prefix input numYears (count : nat) :
  count ≤ Z.to_nat numYears →
  (sumQ (take count (projectsToCashFlows deref (groupBy deref input) numYears))
   == - sumQ (outflow deref input <$> seq 0 count))%Q.
Proof.
  induction count as [|count IH]; intros Hcount.
  - rewrite take_0. simpl. lra.
  - destruct (projectsToCashFlows_lookup input numYears count) as (cashFlow & Hflow & Hout);
      [lia|].
    rewrite (take_S_r _ _ _ Hflow), seq_S, fmap_app, !sumQ_app, IH by lia.
    simpl. lra.
Qed.

(** C5. For the projects [input] grouped by start year, a year below
    [numYears] has the cash flow minus the sum of [totalAmount] over the
    projects that start in it (so 0 when there is none), and its entry of
    the no-interest reference line is [investmentAmount] minus the
    outflows of the years up to and including it: no growth is
    applied. *)
Theorem schedule_cash_flows_and_reference_line (input : list ref) (numYears : Z)
    (investmentAmount : Q) (year : nat) :
  (Z.of_nat year < numYears)%Z →
  let cashFlows := projectsToCashFlows deref (groupBy deref input) numYears in
  ∃ cashFlow balance,
    len cashFlows = numYears
    ∧ len (calculateNoInterestReferenceLine cashFlows investmentAmount numYears) = numYears
    ∧ cashFlows !! year = Some cashFlow
    ∧ (cashFlow == - sumQ (amounts deref (startingIn deref (Z.of_nat year) input)))%Q
    ∧ (startingIn deref (Z.of_nat year) input = [] → cashFlow == 0)%Q
    ∧ calculateNoInterestReferenceLine cashFlows investmentAmount numYears !! year
      = Some (Num balance)
    ∧ (balance == investmentAmount - sumQ (outflow deref input <$> seq 0 (S year)))%Q.
Proof.
  intros Hyear cashFlows.
  destruct (projectsToCashFlows_lookup input numYears year Hyear) as (cashFlow & Hflow & Hout).
  destruct (noInterestLoop_lookup cashFlows (Z.to_nat numYears) 0 investmentAmount year)
    as (balance & Hline & Hbalance).
  { lia. }
  { unfold cashFlows. rewrite projectsToCashFlows_length. lia. }
  exists cashFlow, balance. repeat split; try done.
  - unfold len, cashFlows. rewrite projectsToCashFlows_length. lia.
  - unfold len. rewrite calculateNoInterestReferenceLine_length. lia.
  - intros Hnone. rewrite Hout. unfold outflow. rewrite Hnone. simpl. lra.
  - rewrite Hbalance, drop_0. unfold cashFlows. rewrite cashFlows_prefix by lia. lra.
Qed.
End Grouping.

(** Scenario A: 1000000 invested and one project of 100000 in year 0 leave
    900000 on the reference line of year 0. *)
Lemma schedule_scenarioA :
  (Z.of_nat 0 < 1)%Z
  ∧ (∃ cashFlow balance,
       projectsToCashFlows scenarioA (groupBy scenarioA [0]) 1 !! 0 = Some cashFlow
       ∧ (cashFlow == - 100000)%Q
       ∧ calculateNoInterestReferenceLine
           (projectsToCashFlows scenarioA (groupBy scenarioA [0]) 1) 1000000 1 !! 0
         = Some (Num balance)
       ∧ (balance == 900000)%Q)
  ∧ calculateNoInterestReferenceLine
      (projectsToCashFlows scenarioA (groupBy scenarioA [0]) 1) 1000000 1
    = [Num 900000].
Proof.
  assert (Z.of_nat 0 < 1)%Z as Hyear by lia.
  split; [exact Hyear|]. split; [|vm_compute; reflexivity].
  destruct (schedule_cash_flows_and_reference_line scenarioA [0] 1 1000000 0 Hyear)
    as (cashFlow & balance & _ & _ & Hflow & Hsum & _ & Hline & Hbalance).
  exists cashFlow, balance. repeat split; [exact Hflow| |exact Hline|].
  - apply (Qeq_trans _ _ _ Hsum). reflexivity.
  - apply (Qeq_trans _ _ _ Hbalance). reflexivity.
Defined.

(** ** Option initialization *)

(** C6, as the code has it. Initialization fills the properties that were
    left out with numYears = 10, numRuns = 10000, investmentAmount =
    1000000, performance = 0, liquidity = 10000, and also volatility = 0.01
    and projects = a new empty array; seed stays undefined. A supplied
    property is kept. *)
Theorem initializeOptions_defaults :
  suppliesDefault opt_numYears numYears 10%Z
  ∧ suppliesDefault opt_numRuns numRuns 10000%Z
  ∧ suppliesDefault opt_investmentAmount investmentAmount 1000000%Q
  ∧ suppliesDefault opt_performance performance 0%Q
  ∧ suppliesDefault opt_liquidity liquidity 10000%Q
  ∧ suppliesDefault opt_volatility volatility (1 # 100)%Q
  ∧ (∀ options σ, options ≫= opt_projects = None →
       let '(initialized, σ') := initializeOptions options σ in
       σ !! projects initialized = None ∧ σ' !! projects initialized = Some [])
  ∧ (∀ options σ, seed (initializeOptions options σ).1 = options ≫= opt_seed)
  ∧ keepsSupplied opt_numYears numYears
  ∧ keepsSupplied opt_numRuns numRuns
  ∧ keepsSupplied opt_investmentAmount investmentAmount
  ∧ keepsSupplied opt_performance performance
  ∧ keepsSupplied opt_liquidity liquidity
  ∧ keepsSupplied opt_volatility volatility
  ∧ keepsSupplied opt_projects projects.
Proof.
  unfold suppliesDefault, keepsSupplied.
  repeat split; try (intros options σ H; simpl; by rewrite H);
    try (intros options σ v H; simpl; by rewrite H).
  - simpl. rewrite H. simpl. apply not_elem_of_dom, is_fresh.
  - simpl. rewrite H. simpl. apply lookup_insert_eq.
Qed.

(** Without any property the result is the table of defaults. *)
Lemma initializeOptions_noProperties :
  Some noProperties ≫= opt_volatility = None
  ∧ volatility (initializeOptions (Some noProperties) ∅).1 = (1 # 100)%Q
  ∧ numYears (initializeOptions (Some noProperties) ∅).1 = 10%Z.
Proof.
  destruct initializeOptions_defaults as (Hyears & _ & _ & _ & _ & Hvolatility & _).
  split; [reflexivity|]. split.
  - apply (Hvolatility (Some noProperties) ∅). reflexivity.
  - apply (Hyears (Some noProperties) ∅). reflexivity.
Defined.

(** Counterexample to C6: the caller leaves [volatility] out, or passes no
    options at all, and initialization sets it to 0.01. *)
Lemma initializeOptions_volatility_has_default :
  opt_volatility noProperties = None
  ∧ volatility (initializeOptions (Some noProperties) ∅).1 = (1 # 100)%Q
  ∧ volatility (initializeOptions None ∅).1 = (1 # 100)%Q.
Proof. repeat split. Qed.

(** ** The four bands *)

(** A finite value finds its group unless the reference line is NaN; an
    undefined reference line leaves the red band unbounded on both sides. *)
Lemma groupForValue_finds (requiredAmount liquidity value : Q) (reference : number) :
  reference ≠ NaN →
  ∃ group,
    groupForValue (Num value) (createGroups requiredAmount reference liquidity) = Some group
    ∧ In group (createGroups requiredAmount reference liquidity)
    ∧ inGroup (Num value) group = true.
Proof.
  intros Hreference. unfold groupForValue, createGroups, inGroup.
  destruct reference as [| |noInterest]; [|done|]; simpl;
    Qbool; simpl; eexists; (split; [reflexivity|]); simpl; Qbool; simpl;
    split; auto 6; try lra.
Qed.

(** C2, as the code has it. Every finite value lies in at least one of the
    four bands, so [groupForValue] finds a group for it: the first band, in
    the order green, yellow, gray, red, that contains it. When liquidity is
    not negative and the reference line does not exceed [requiredAmount -
    liquidity], exactly one band contains the value. *)
Theorem createGroups_cover (requiredAmount liquidity noInterest value : Q) :
  let groups := createGroups requiredAmount (Num noInterest) liquidity in
  (∃ group, groupForValue (Num value) groups = Some group
            ∧ In group groups ∧ inGroup (Num value) group = true)
  ∧ ((0 <= liquidity)%Q → (noInterest <= requiredAmount - liquidity)%Q →
     length (bandsContaining (Num value) groups) = 1).
Proof.
  simpl. split.
  - by apply groupForValue_finds.
  - intros Hl Hn. unfold bandsContaining, createGroups, inGroup; simpl.
    Qbool; simpl; try reflexivity; lra.
Qed.

(** A project of 950000 out of 1000000, with 10000 of liquidity: the
    reference line is at 50000, and 945000 lies in the yellow band and in
    no other. *)
Lemma createGroups_cover_yellow :
  (0 <= 10000)%Q ∧ (50000 <= 950000 - 10000)%Q
  ∧ length (bandsContaining (Num 945000) (createGroups 950000 (Num 50000) 10000)) = 1
  ∧ name <$> groupForValue (Num 945000) (createGroups 950000 (Num 50000) 10000)
    = Some "yellow".
Proof.
  assert (0 <= 10000)%Q as Hl by lra.
  assert (50000 <= 950000 - 10000)%Q as Hn by lra.
  split; [exact Hl|]. split; [exact Hn|]. split; [|reflexivity].
  exact (proj2 (createGroups_cover 950000 10000 50000 945000) Hl Hn).
Defined.

(** Counterexample to C2, with the numbers of scenario A: 100000 required,
    10000 of liquidity and the reference line at 900000. The value 500000
    lies in the green band and in the red band; [groupForValue] answers
    green. *)
Lemma createGroups_overlap :
  name <$> bandsContaining (Num 500000) (createGroups 100000 (Num 900000) 10000)
  = ["green"; "red"]
  ∧ name <$> groupForValue (Num 500000) (createGroups 100000 (Num 900000) 10000)
    = Some "green".
Proof. split; reflexivity. Qed.

(** ** Shape of the environment *)

Section Shape.
Variable deref : ref → IProject.
Variable random : nat → Q → Q → Q.

Lemma toAbsoluteLoop_length cashFlows relativeYear indices value previous :
  length (toAbsoluteLoop cashFlows relativeYear indices value previous) = length indices.
Proof.
  revert relativeYear value previous.
  induction indices as [|current indices IH]; intros; simpl; [done|]. by rewrite IH.
Qed.

Lemma relativeIndices_length performance volatility calls years previous :
  length (relativeIndices random performance volatility calls years previous) = years.
Proof.
  revert calls previous. induction years as [|years IH]; intros; simpl; [done|].
  by rewrite IH.
Qed.

(** Every run yields a path with one value per year from 0 to
    [numYears]. *)
Lemma simulateRuns_shape cashFlows investmentAmount performance volatility years runs calls :
  let paths :=
    simulateRuns random cashFlows investmentAmount performance volatility years runs calls in
  length paths = runs ∧ Forall (λ path, length path = S years) paths.
Proof.
  revert calls. induction runs as [|runs IH]; intros calls; simpl; [done|].
  destruct (IH (calls + years)) as [Hlen Hall]. split; [by rewrite Hlen|].
  constructor; [|done].
  unfold toAbsoluteIndices. rewrite toAbsoluteLoop_length. simpl.
  by rewrite relativeIndices_length.
Qed.

Lemma column_length (paths : list (list Q)) (year : nat) :
  Forall (λ path, year < length path) paths →
  length (omap (λ indices : list Q, indices !! year) paths) = length paths.
Proof.
  induction 1 as [|path paths Hpath _ IH]; simpl; [done|].
  destruct (lookup_lt_is_Some_2 path year Hpath) as [v ->]. simpl. f_equal. exact IH.
Qed.

Lemma new_Array_arrayLength (n : Z) : arrayLength n → new_Array n = Ok (Z.to_nat n).
Proof.
  unfold arrayLength, new_Array. intros Hn.
  destruct (Z.ltb_spec n 0); [lia|]. destruct (Z.ltb_spec 4294967295 n); [lia|]. done.
Qed.

Lemma new_Array_RangeError (n : Z) : ¬ arrayLength n → new_Array n = Throw RangeError.
Proof.
  unfold arrayLength, new_Array. intros Hn.
  destruct (Z.ltb_spec n 0); [done|]. destruct (Z.ltb_spec 4294967295 n); [done|]. lia.
Qed.

Lemma new_Array_Ok (n : Z) (k : nat) : new_Array n = Ok k → arrayLength n ∧ k = Z.to_nat n.
Proof.
  intros H. destruct (decide (arrayLength n)) as [Hn|Hn].
  - rewrite new_Array_arrayLength in H by done. by injection H as <-.
  - by rewrite new_Array_RangeError in H.
Qed.

Lemma simulateOutcomes_shape cashFlows investmentAmount options :
  arrayLength (numYears options) → arrayLength (numRuns options) →
  ∃ rows, simulateOutcomes random cashFlows investmentAmount options = Ok rows
          ∧ len rows = (numYears options + 1)%Z
          ∧ Forall (λ row, len row = numRuns options) rows.
Proof.
  intros Hyears Hruns. unfold simulateOutcomes.
  rewrite (new_Array_arrayLength _ Hyears), (new_Array_arrayLength _ Hruns).
  unfold arrayLength in Hyears, Hruns.
  cbn [mbind outcome_mbind outcome_bind].
  eexists. split; [reflexivity|]. unfold len. split.
  - rewrite length_fmap, length_seq. lia.
  - apply Forall_fmap, Forall_forall. intros year Hyear. simpl.
    apply elem_of_seq in Hyear.
    destruct (simulateRuns_shape cashFlows investmentAmount (performance options)
                (volatility options) (Z.to_nat (numYears options))
                (Z.to_nat (numRuns options)) 0) as [Hlen Hall].
    rewrite column_length, Hlen; [lia|].
    eapply Forall_impl; [exact Hall|]. simpl. intros path ->. lia.
Qed.

(** A [numYears] or a [numRuns] that is not the length of an array makes
    [new Array] fail. *)
Lemma simulateOutcomes_no_arrayLength cashFlows investmentAmount options :
  ¬ arrayLength (numYears options) ∨ ¬ arrayLength (numRuns options) →
  simulateOutcomes random cashFlows investmentAmount options = Throw RangeError.
Proof.
  intros H. unfold simulateOutcomes.
  destruct (decide (arrayLength (numYears options))) as [Hyears|Hyears].
  - destruct H as [H|H]; [done|].
    by rewrite (new_Array_arrayLength _ Hyears), (new_Array_RangeError _ H).
  - by rewrite (new_Array_RangeError _ Hyears).
Qed.

(** A negative [numYears] or [numRuns] makes [new Array] fail. *)
Lemma simulateOutcomes_RangeError cashFlows investmentAmount options :
  (numYears options < 0)%Z ∨ (numRuns options < 0)%Z →
  simulateOutcomes random cashFlows investmentAmount options = Throw RangeError.
Proof.
  intros H. apply simulateOutcomes_no_arrayLength. unfold arrayLength.
  destruct H; [left|right]; lia.
Qed.

Lemma simulateOutcomes_arrayLength cashFlows investmentAmount options rows :
  simulateOutcomes random cashFlows investmentAmount options = Ok rows →
  arrayLength (numYears options) ∧ arrayLength (numRuns options).
Proof.
  intros H.
  destruct (decide (arrayLength (numYears options))) as [Hyears|Hyears];
    [destruct (decide (arrayLength (numRuns options))) as [Hruns|Hruns]; [done|]|];
    rewrite simulateOutcomes_no_arrayLength in H by auto; done.
Qed.

(** What [createMonteCarloEnvironment] returns when no partition is
    given: the array of the options is left sorted, and the environment is
    computed from the sorted array. *)
Lemma createMonteCarloEnvironment_Ok options σ environment σ' :
  unpartitioned options →
  createMonteCarloEnvironment deref random options σ = Ok (environment, σ') →
  let sorted := Array_sort (byStartYear deref) (read σ (projects options)) in
  let cashFlows := projectsToCashFlows deref (groupBy deref sorted) (numYears options) in
  σ' = <[projects options := sorted]> σ
  ∧ projectsByStartYear environment = groupBy deref sorted
  ∧ noInterestReferenceLine environment
    = calculateNoInterestReferenceLine cashFlows (investmentAmount options) (numYears options)
  ∧ simulateOutcomes random cashFlows (investmentAmount options) options
    = Ok (simulatedValues environment)
  ∧ env_numRuns environment = numRuns options
  ∧ env_numYears environment = largestStartYear deref sorted
  ∧ env_liquidity environment = liquidity options
  ∧ env_investmentAmount environment = investmentAmount options.
Proof.
  unfold unpartitioned, createMonteCarloEnvironment. intros -> H.
  unfold read in *. rewrite !lookup_insert_eq in H.
  destruct (simulateOutcomes _ _ _ _) as [rows| |] eqn:Hrows;
    cbn [mbind outcome_mbind outcome_bind] in H; try done.
  injection H as <- <-. by repeat split.
Qed.

(** The environment is built, for any partition, as soon as [numYears]
    and [numRuns] are lengths of arrays. *)
Lemma createMonteCarloEnvironment_total options σ :
  arrayLength (numYears options) → arrayLength (numRuns options) →
  ∃ environment σ',
    createMonteCarloEnvironment deref random options σ = Ok (environment, σ')
    ∧ len (projectsToCashFlows deref (projectsByStartYear environment) (numYears options))
      = numYears options
    ∧ len (noInterestReferenceLine environment) = numYears options
    ∧ len (simulatedValues environment) = (numYears options + 1)%Z
    ∧ Forall (λ row, len row = numRuns options) (simulatedValues environment)
    ∧ env_numRuns environment = numRuns options.
Proof.
  intros Hyears Hruns. unfold createMonteCarloEnvironment.
  destruct (truthy (taskIndex options) && truthy (valuesPerWorker options));
    match goal with
    | |- context [simulateOutcomes random ?flows ?amount options] =>
        destruct (simulateOutcomes_shape flows amount options Hyears Hruns)
          as (rows & -> & Hlen & Hrows)
    end;
    cbn [mbind outcome_mbind outcome_bind]; eexists _, _; (split; [reflexivity|]);
    cbn [projectsByStartYear noInterestReferenceLine simulatedValues env_numRuns];
    unfold len;
    rewrite projectsToCashFlows_length, calculateNoInterestReferenceLine_length;
    unfold arrayLength in Hyears, Hruns;
    repeat split; try done; lia.
Qed.

(** Without two lengths of arrays there is no environment. *)
Lemma createMonteCarloEnvironment_no_arrayLength options σ :
  ¬ arrayLength (numYears options) ∨ ¬ arrayLength (numRuns options) →
  createMonteCarloEnvironment deref random options σ = Throw RangeError.
Proof.
  intros H. unfold createMonteCarloEnvironment.
  destruct (truthy (taskIndex options) && truthy (valuesPerWorker options));
    by rewrite simulateOutcomes_no_arrayLength.
Qed.

Lemma createMonteCarloEnvironment_arrayLength options σ environment σ' :
  createMonteCarloEnvironment deref random options σ = Ok (environment, σ') →
  arrayLength (numYears options) ∧ arrayLength (numRuns options).
Proof.
  intros H.
  destruct (decide (arrayLength (numYears options))) as [Hyears|Hyears];
    [destruct (decide (arrayLength (numRuns options))) as [Hruns|Hruns]; [done|]|];
    rewrite createMonteCarloEnvironment_no_arrayLength in H by auto; done.
Qed.

(** A negative [numYears] or [numRuns] leaves no environment. *)
Lemma createMonteCarloEnvironment_RangeError options σ :
  (numYears options < 0)%Z ∨ (numRuns options < 0)%Z →
  createMonteCarloEnvironment deref random options σ = Throw RangeError.
Proof.
  intros H. unfold createMonteCarloEnvironment.
  destruct (truthy (taskIndex options) && truthy (valuesPerWorker options));
    by rewrite simulateOutcomes_RangeError.
Qed.
End Shape.

Lemma largestStartYear_Permutation (deref : ref → IProject) (l l' : list ref) :
  l ≡ₚ l' → largestStartYear deref l = largestStartYear deref l'.
Proof.
  unfold largestStartYear. generalize 0%Z as start. intros start Hperm. revert start.
  induction Hperm as [|p l l' _ IH|p q l|l1 l2 l3 _ IH1 _ IH2]; intros start; simpl.
  - done.
  - apply IH.
  - f_equal. lia.
  - by rewrite IH1.
Qed.

(** C10, as the code has it. Every environment that
    [createMonteCarloEnvironment] returns was built from options whose
    [numYears] and [numRuns] are not negative, and for these two numbers of
    the options: the cash-flow vector and the reference line have
    [numYears] entries, [simulatedValues] has [numYears + 1] rows and every
    row has [numRuns] entries. The environment stores [numRuns]; it has no
    cash-flow field, and its own [numYears] field is, when no partition is
    given, the largest start year of the projects. *)
Theorem createMonteCarloEnvironment_shape (deref : ref → IProject)
    (random : nat → Q → Q → Q) (options : IInitializedMonteCarloSimulationOptions)
    (σ : Store) environment σ' :
  createMonteCarloEnvironment deref random options σ = Ok (environment, σ') →
  (0 <= numYears options)%Z
  ∧ (0 <= numRuns options)%Z
  ∧ len (projectsToCashFlows deref (projectsByStartYear environment) (numYears options))
    = numYears options
  ∧ len (noInterestReferenceLine environment) = numYears options
  ∧ len (simulatedValues environment) = (numYears options + 1)%Z
  ∧ Forall (λ row, len row = numRuns options) (simulatedValues environment)
  ∧ env_numRuns environment = numRuns options
  ∧ (unpartitioned options →
     env_numYears environment = largestStartYear deref (read σ (projects options))).
Proof.
  intros Hrun.
  assert (0 <= numYears options)%Z as Hyears.
  { destruct (Z.lt_ge_cases (numYears options) 0) as [Hneg|]; [|done].
    rewrite createMonteCarloEnvironment_RangeError in Hrun by auto. done. }
  assert (0 <= numRuns options)%Z as Hruns.
  { destruct (Z.lt_ge_cases (numRuns options) 0) as [Hneg|]; [|done].
    rewrite createMonteCarloEnvironment_RangeError in Hrun by auto. done. }
  destruct (createMonteCarloEnvironment_arrayLength deref random _ _ _ _ Hrun)
    as [Hlength Hlength'].
  destruct (createMonteCarloEnvironment_total deref random options σ Hlength Hlength')
    as (environment0 & σ0 & Hrun0 & Hflows & Hline & Hrows & Hrow & Hnum).
  rewrite Hrun in Hrun0. injection Hrun0 as <- <-.
  repeat split; try done.
  intros Hwhole.
  destruct (createMonteCarloEnvironment_Ok deref random options σ environment σ' Hwhole Hrun)
    as (_ & _ & _ & _ & _ & -> & _).
  apply largestStartYear_Permutation, Array_sort_Permutation.
Qed.

(** Two years, two runs, the single project of scenario A. *)
Lemma createMonteCarloEnvironment_shape_scenarioA :
  let initialized := (initializeOptions (Some (optionsWith 0 2 2)) oneProject).1 in
  let σ := (initializeOptions (Some (optionsWith 0 2 2)) oneProject).2 in
  ∃ environment σ',
    createMonteCarloEnvironment scenarioA cyclicRandom initialized σ = Ok (environment, σ')
    ∧ len (noInterestReferenceLine environment) = 2%Z
    ∧ len (simulatedValues environment) = 3%Z
    ∧ Forall (λ row, len row = 2%Z) (simulatedValues environment)
    ∧ env_numRuns environment = 2%Z.
Proof.
  intros initialized σ.
  destruct (createMonteCarloEnvironment scenarioA cyclicRandom initialized σ)
    as [[environment σ']| |] eqn:Hrun; [|vm_compute in Hrun; discriminate..].
  destruct (createMonteCarloEnvironment_shape scenarioA cyclicRandom initialized σ
              environment σ' Hrun)
    as (_ & _ & _ & Hline & Hrows & Hrow & Hnum & _).
  by exists environment, σ'.
Defined.

(** Counterexample to C10: for the same call the environment has three
    rows of simulated values while its [numYears] field is 0. *)
Lemma createMonteCarloEnvironment_numYears_mismatch :
  let '(initialized, σ) := initializeOptions (Some (optionsWith 0 2 2)) oneProject in
  match createMonteCarloEnvironment scenarioA cyclicRandom initialized σ with
  | Ok (environment, _) =>
      len (simulatedValues environment) = 3%Z ∧ env_numYears environment = 0%Z
      ∧ len (simulatedValues environment) ≠ (env_numYears environment + 1)%Z
  | _ => False
  end.
Proof. vm_compute. repeat split. discriminate. Qed.

(** ** The required amount in the environment *)

Section RequiredAmount.
Variable deref : ref → IProject.
Variable random : nat → Q → Q → Q.

(** The grouping of the environment is the grouping of the sorted array of
    the options, for any partition. *)
Lemma createMonteCarloEnvironment_groups options σ environment σ' :
  createMonteCarloEnvironment deref random options σ = Ok (environment, σ') →
  projects options ∈ dom σ →
  projectsByStartYear environment
  = groupBy deref (Array_sort (byStartYear deref) (read σ (projects options))).
Proof.
  unfold createMonteCarloEnvironment. intros H Hdom.
  assert (fresh (dom σ) ≠ projects options) as Hfresh.
  { intros Heq. rewrite <- Heq in Hdom. by apply is_fresh in Hdom. }
  destruct (truthy (taskIndex options) && truthy (valuesPerWorker options));
    unfold read in *; rewrite ?lookup_insert_eq, ?(lookup_insert_ne _ _ _ _ Hfresh) in H;
    destruct (simulateOutcomes _ _ _ _) as [rows| |];
    cbn [mbind outcome_mbind outcome_bind] in H; try done;
    by injection H as <- <-.
Qed.

(** C4. In the environment that [createMonteCarloEnvironment] builds from
    the caller's projects, [calculateRequiredAmount] returns, for every
    project [p] of the input, the project's own [totalAmount] plus the
    [totalAmount] of every other project with the same [startYear] that
    stands in front of it in the input: only the earlier projects of the
    year count. *)
Theorem calculateRequiredAmount_earlier_same_year options σ environment σ' (p : ref) :
  createMonteCarloEnvironment deref random options σ = Ok (environment, σ') →
  p ∈ read σ (projects options) →
  ∃ amount,
    calculateRequiredAmount deref p (projectsByStartYear environment) = Ok amount
    ∧ (amount == totalAmount (deref p)
                 + sumQ (amounts deref (startingIn deref (startYear (deref p))
                                          (before p (read σ (projects options))))))%Q.
Proof.
  intros Henv Hin.
  rewrite (createMonteCarloEnvironment_groups _ _ _ _ Henv).
  - by apply calculateRequiredAmount_of_grouping.
  - apply elem_of_dom. unfold read in Hin.
    destruct (σ !! projects options); [done|by apply not_elem_of_nil in Hin].
Qed.
End RequiredAmount.

(** Scenario B: two projects of year 0 with 50000 and then 30000. The
    first needs 50000, the second 80000. *)
Lemma calculateRequiredAmount_scenarioB :
  let initialized := (initializeOptions (Some (optionsWith 0 1 10)) twoProjects).1 in
  let σ := (initializeOptions (Some (optionsWith 0 1 10)) twoProjects).2 in
  ∃ environment σ',
    createMonteCarloEnvironment scenarioB cyclicRandom initialized σ = Ok (environment, σ')
    ∧ 1 ∈ read σ (projects initialized)
    ∧ (∃ amount,
         calculateRequiredAmount scenarioB 1 (projectsByStartYear environment) = Ok amount
         ∧ (amount == 80000)%Q)
    ∧ calculateRequiredAmount scenarioB 0 (projectsByStartYear environment) = Ok 50000%Q
    ∧ calculateRequiredAmount scenarioB 1 (projectsByStartYear environment) = Ok 80000%Q.
Proof.
  intros initialized σ.
  destruct (createMonteCarloEnvironment scenarioB cyclicRandom initialized σ)
    as [[environment σ']| |] eqn:Henv; [|vm_compute in Henv; discriminate..].
  assert (1 ∈ read σ (projects initialized)) as Hin.
  { replace (read σ (projects initialized)) with [0; 1] by (vm_compute; reflexivity).
    apply elem_of_cons. right. apply elem_of_cons. by left. }
  exists environment, σ'. split; [reflexivity|]. split; [exact Hin|]. split.
  - destruct (calculateRequiredAmount_earlier_same_year scenarioB cyclicRandom
                initialized σ environment σ' 1 Henv Hin) as (amount & Hrun & Hamount).
    exists amount. split; [exact Hrun|].
    apply (Qeq_trans _ _ _ Hamount). vm_compute. reflexivity.
  - vm_compute in Henv. injection Henv as <- _. split; vm_compute; reflexivity.
Defined.

(** ** Aggregation of one project *)

(** With a bucket size of 0 the loop over the buckets makes no progress. *)
Lemma bucketLoop_no_progress fuel values groups i buckets valuesByGroup :
  (i < len values)%Z →
  bucketLoop fuel values groups 0 i buckets valuesByGroup = OutOfFuel.
Proof.
  intros Hi. revert buckets.
  induction fuel as [|fuel IH]; intros buckets; simpl;
    destruct (Z.ltb_spec i (len values)); try lia; simpl; [done|].
  rewrite Z.add_0_r. apply IH.
Qed.

Lemma statistics_chain (values : list Q) :
  ascending values → (5 <= len values)%Z →
  let oneSixth := Math_round (inject_Z (len values) / 6) in
  chain (at_ values 0) (at_ values oneSixth) (median values)
        (at_ values (len values - oneSixth)) (at_ values (len values - 1)).
Proof.
  intros Hsorted Hlen oneSixth.
  assert (oneSixth = ((len values + 3) / 6)%Z) as Hsixth by apply oneSixth_spec.
  clearbody oneSixth. remember (len values) as N eqn:HN.
  destruct (at_ascending values 0 oneSixth) as (qa & qb & Ha & Hb & Hab); [done|divlia..|].
  destruct (at_ascending values (N - oneSixth) (N - 1)) as (qd & qe & Hd & He & Hde);
    [done|divlia..|].
  unfold chain, median. rewrite <- HN.
  destruct (Z.eqb_spec (N mod 2) 0) as [Heven|Hodd]; simpl.
  - destruct (at_ascending values oneSixth (N / 2 - 1)) as (qb' & x & Hb' & Hx & Hbx);
      [done|divlia..|].
    destruct (at_ascending values (N / 2 - 1) (N / 2)) as (x' & y & Hx' & Hy & Hxy);
      [done|divlia..|].
    destruct (at_ascending values (N / 2) (N - oneSixth)) as (y' & qd' & Hy' & Hd' & Hyd);
      [done|divlia..|].
    rewrite Hx, Hy. simpl.
    exists qa, qb, ((x + y) / 2)%Q, qd, qe.
    assert (qb' = qb) as -> by congruence. assert (x' = x) as -> by congruence.
    assert (y' = y) as -> by congruence. assert (qd' = qd) as -> by congruence.
    repeat split; try done.
    + apply Qle_shift_div_l; lra.
    + apply Qle_shift_div_r; lra.
  - destruct (at_ascending values oneSixth (N / 2)) as (qb' & x & Hb' & Hx & Hbx);
      [done|divlia..|].
    destruct (at_ascending values (N / 2) (N - oneSixth)) as (x' & qd' & Hx' & Hd' & Hxd);
      [done|divlia..|].
    exists qa, qb, x, qd, qe.
    assert (qb' = qb) as -> by congruence. assert (x' = x) as -> by congruence.
    assert (qd' = qd) as -> by congruence.
    repeat split; done.
Qed.

Lemma foldlM_Ok {A B : Type} (f : A → B → outcome A) (l : list B) :
  (∀ a b, b ∈ l → ∃ a', f a b = Ok a') → ∀ a, ∃ a', foldlM f a l = Ok a'.
Proof.
  induction l as [|b l IH]; intros Hstep a; simpl; [by eexists|].
  destruct (Hstep a b) as [a' ->]; [by left|].
  cbn [mbind outcome_mbind outcome_bind]. apply IH.
  intros a0 b0 Hb0. apply Hstep. by right.
Qed.

Lemma bucketStep_Ok (values : list Q) requiredAmount reference liquidity state (j : Z) :
  reference ≠ NaN → (0 <= j < len values)%Z →
  ∃ state', bucketStep values (createGroups requiredAmount reference liquidity) state j
            = Ok state'.
Proof.
  intros Hreference Hj. destruct state as [bucket valuesByGroup]. unfold bucketStep.
  destruct (at_in_range values j Hj) as (value & -> & _).
  destruct (groupForValue_finds requiredAmount liquidity value reference Hreference)
    as (group & -> & _).
  by eexists.
Qed.

(** With a positive bucket size that divides what is left of the row, the
    loop over the buckets ends after one iteration per bucket. *)
Lemma bucketLoop_Ok (values : list Q) requiredAmount reference liquidity (size : Z) :
  reference ≠ NaN → (0 < size)%Z →
  ∀ (count fuel : nat) (i : Z) bucketList valuesByGroup,
    (0 <= i)%Z → (i + Z.of_nat count * size = len values)%Z → count ≤ fuel →
    ∃ bucketList' valuesByGroup',
      bucketLoop fuel values (createGroups requiredAmount reference liquidity) size i
        bucketList valuesByGroup = Ok (bucketList', valuesByGroup')
      ∧ length bucketList' = length bucketList + count.
Proof.
  intros Hreference Hsize.
  induction count as [|count IH]; intros fuel i bucketList valuesByGroup Hi Hlen Hfuel.
  - exists bucketList, valuesByGroup. split; [|lia].
    destruct fuel; simpl; destruct (Z.ltb_spec i (len values)); try lia; done.
  - destruct fuel as [|fuel]; [lia|]. simpl.
    destruct (Z.ltb_spec i (len values)); [|nia]. simpl.
    destruct (foldlM_Ok (bucketStep values (createGroups requiredAmount reference liquidity))
                (seqZ i size)) with
      (a := ({| bucket_min := Num MAX_VALUE; bucket_max := Num MIN_VALUE; subBuckets := ∅ |},
             valuesByGroup)) as [[bucket valuesByGroup'] Hinner].
    { intros state j Hj. apply elem_of_seqZ in Hj.
      apply bucketStep_Ok; [done|nia]. }
    rewrite Hinner. cbn [mbind outcome_mbind outcome_bind].
    destruct (IH fuel (i + size)%Z (bucketList ++ [bucket]) valuesByGroup')
      as (bucketList' & valuesByGroup'' & Hrest & Hcount); [lia|lia|lia|].
    exists bucketList', valuesByGroup''. split; [done|].
    rewrite Hcount, length_app. simpl. lia.
Qed.

Section Aggregation.
Variable deref : ref → IProject.

(** What a call of [calculateProject] that returns has computed. *)
Lemma calculateProject_Ok fuel p environment result environment' :
  calculateProject deref fuel p environment = Ok (result, environment') →
  ∃ requiredAmount row bucketList valuesByGroup,
    let year := startYear (deref p) in
    let sorted := Array_sort Qle_bool row in
    calculateRequiredAmount deref p (projectsByStartYear environment) = Ok requiredAmount
    ∧ index (simulatedValues environment) year = Some row
    ∧ bucketLoop fuel sorted
        (createGroups requiredAmount
           (default Undefined (index (noInterestReferenceLine environment) year))
           (env_liquidity environment))
        (Math_round (inject_Z (len sorted) / NUMBER_OF_BUCKETS)) 0 [] ∅
      = Ok (bucketList, valuesByGroup)
    ∧ environment' = withSortedRow environment year sorted
    ∧ project result = p
    ∧ buckets result = bucketList
    ∧ res_min result = at_ sorted 0
    ∧ tt_min (twoThird result) = at_ sorted (Math_round (inject_Z (len sorted) / 6))
    ∧ res_median result = median sorted
    ∧ tt_max (twoThird result)
      = at_ sorted (len sorted - Math_round (inject_Z (len sorted) / 6))
    ∧ res_max result = at_ sorted (len sorted - 1).
Proof.
  unfold calculateProject. intros H.
  destruct (calculateRequiredAmount _ _ _) as [requiredAmount| |];
    cbn [mbind outcome_mbind outcome_bind] in H; try done.
  destruct (index _ _) as [row|]; try done.
  destruct (bucketLoop _ _ _ _ _ _ _) as [[bucketList valuesByGroup]| |] eqn:Hloop;
    cbn [mbind outcome_mbind outcome_bind] in H; try done.
  injection H as <- <-. by exists requiredAmount, row, bucketList, valuesByGroup.
Qed.

Lemma index_Some {A : Type} (a : list A) (i : Z) (x : A) :
  index a i = Some x ↔ (0 <= i)%Z ∧ a !! Z.to_nat i = Some x.
Proof.
  unfold index. destruct (Z.ltb_spec i 0); split; try done; intros [? ?]; done || lia.
Qed.

(** Enough fuel gives the result: when the strides fit the row, one unit
    of fuel per bucket is enough. *)
Lemma calculateProject_returns fuel p environment row :
  ready deref environment p →
  index (simulatedValues environment) (startYear (deref p)) = Some row →
  fullBuckets (len row) →
  (len row / ((len row + 5) / 10) <= Z.of_nat fuel)%Z →
  ∃ result,
    calculateProject deref fuel p environment
    = Ok (result, withSortedRow environment (startYear (deref p)) (Array_sort Qle_bool row))
    ∧ len (buckets result) = (len row / ((len row + 5) / 10))%Z.
Proof.
  intros ([sameYear Hgroup] & _ & Hreference) Hrow [Hfive Hfit] Hfuel.
  unfold calculateProject, calculateRequiredAmount.
  rewrite Hgroup, Hrow. cbn [mbind outcome_mbind outcome_bind].
  assert (len (Array_sort Qle_bool row) = len row) as Hsorted.
  { unfold len. by rewrite Array_sort_length. }
  rewrite bucketSize_spec, Hsorted.
  set (size := ((len row + 5) / 10)%Z) in *.
  assert (0 < size)%Z as Hsize by (unfold size; divlia).
  match goal with
  | |- context [bucketLoop fuel ?values (createGroups ?amount ?reference ?liquidity) size 0 [] ∅] =>
      destruct (bucketLoop_Ok values amount reference liquidity size Hreference Hsize
                  (Z.to_nat (len row / size)) fuel 0 [] ∅)
        as (bucketList & valuesByGroup & -> & Hcount)
  end.
  - lia.
  - rewrite Hsorted, Z2Nat.id by (apply Z.div_pos; lia).
    rewrite Z.mul_comm. symmetry. apply Z.div_exact; lia.
  - lia.
  - cbn [mbind outcome_mbind outcome_bind]. eexists. split; [reflexivity|].
    simpl. unfold len. rewrite Hcount. simpl.
    rewrite Z2Nat.id by (apply Z.div_pos; lia). done.
Qed.

(** A row of one to four values has bucket size 0. *)
Lemma calculateProject_no_progress fuel p environment sameYear row :
  projectsByStartYear environment !! startYear (deref p) = Some sameYear →
  index (simulatedValues environment) (startYear (deref p)) = Some row →
  (1 <= len row <= 4)%Z →
  calculateProject deref fuel p environment = OutOfFuel.
Proof.
  intros Hgroup Hrow Hlen. unfold calculateProject, calculateRequiredAmount.
  rewrite Hgroup, Hrow. cbn [mbind outcome_mbind outcome_bind].
  assert (len (Array_sort Qle_bool row) = len row) as Hsorted.
  { unfold len. by rewrite Array_sort_length. }
  rewrite bucketSize_spec, Hsorted.
  replace ((len row + 5) / 10)%Z with 0%Z by divlia.
  rewrite bucketLoop_no_progress; [done|]. rewrite Hsorted. lia.
Qed.

(** C3, what the code does. When the row of the project's year holds one
    value (numRuns = 1), and more generally one to four values, the bucket
    size [Math.round(length / 10)] is 0 and the loop over the buckets never
    advances: [calculateProject] returns for no amount of fuel, so it
    produces no bucket, no group and no statistics. *)
Theorem calculateProject_few_values_diverges fuel p environment sameYear row :
  projectsByStartYear environment !! startYear (deref p) = Some sameYear →
  index (simulatedValues environment) (startYear (deref p)) = Some row →
  (1 <= len row <= 4)%Z →
  ∀ result environment',
    calculateProject deref fuel p environment ≠ Ok (result, environment')
    ∧ calculateProject deref fuel p environment = OutOfFuel.
Proof.
  intros Hgroup Hrow Hlen result environment'.
  rewrite (calculateProject_no_progress fuel p environment sameYear row Hgroup Hrow Hlen).
  by split.
Qed.

(** C8, as the code has it. A call of [calculateProject] that returns
    leaves the environment as it was except for the row of simulated
    values of the project's year, which it has sorted in place: the row
    holds the same values in ascending order, every other row and every
    other field is unchanged, and a row that was already sorted stays as it
    is. *)
Theorem calculateProject_sorts_row_in_place fuel p environment result environment' :
  calculateProject deref fuel p environment = Ok (result, environment') →
  ∃ row,
    let year := Z.to_nat (startYear (deref p)) in
    (0 <= startYear (deref p))%Z
    ∧ simulatedValues environment !! year = Some row
    ∧ simulatedValues environment' !! year = Some (Array_sort Qle_bool row)
    ∧ Array_sort Qle_bool row ≡ₚ row
    ∧ ascending (Array_sort Qle_bool row)
    ∧ (∀ other, other ≠ year →
         simulatedValues environment' !! other = simulatedValues environment !! other)
    ∧ length (simulatedValues environment') = length (simulatedValues environment)
    ∧ env_investmentAmount environment' = env_investmentAmount environment
    ∧ env_liquidity environment' = env_liquidity environment
    ∧ noInterestReferenceLine environment' = noInterestReferenceLine environment
    ∧ env_numRuns environment' = env_numRuns environment
    ∧ env_numYears environment' = env_numYears environment
    ∧ projectsByStartYear environment' = projectsByStartYear environment
    ∧ (ascending row → environment' = environment).
Proof.
  intros Hrun.
  destruct (calculateProject_Ok _ _ _ _ _ Hrun)
    as (requiredAmount & row & bucketList & valuesByGroup & _ & Hrow & _ & -> & _).
  apply index_Some in Hrow as [Hyear Hrow].
  exists row. simpl. repeat split; try done.
  - apply list_lookup_insert_eq. by eapply lookup_lt_Some.
  - apply Array_sort_Permutation.
  - apply Array_sort_ascending.
  - intros other Hother. by apply list_lookup_insert_ne.
  - apply length_insert.
  - intros Hsorted. unfold withSortedRow.
    rewrite (Array_sort_sorted_id _ _ Hsorted), (list_insert_id _ _ _ Hrow).
    by destruct environment.
Qed.

(** C9, as the code has it. In the result of [calculateProject] for a
    year with at least one simulated value, the values of the year being
    finite numbers of which two can be added within the range of the
    doubles: [min] and [max] are the first and the last element of the
    sorted row; the median is the middle element of the sorted row for an
    odd length and half the sum of the two middle elements for an even one;
    [twoThird.min] is the element at position [oneSixth = Math.round(length
    / 6)], a position of the row, so that [oneSixth] values lie in front of
    it; and min, twoThird.min, median, twoThird.max and max are finite
    numbers with min <= twoThird.min <= median <= twoThird.max <= max, which
    all lie in the range of the values of the year. *)
Theorem calculateProject_ordering_chain fuel p environment result environment' row :
  calculateProject deref fuel p environment = Ok (result, environment') →
  index (simulatedValues environment) (startYear (deref p)) = Some row →
  row ≠ [] →
  Forall addable row →
  let sorted := Array_sort Qle_bool row in
  let count := len sorted in
  let oneSixth := Math_round (inject_Z count / 6) in
  sorted ≡ₚ row ∧ ascending sorted
  ∧ res_min result = at_ sorted 0
  ∧ res_max result = at_ sorted (count - 1)
  ∧ ((count mod 2 = 1)%Z → res_median result = at_ sorted (count / 2))
  ∧ ((count mod 2 = 0)%Z →
     res_median result
     = js_div (js_add (at_ sorted (count / 2 - 1)) (at_ sorted (count / 2))) (Num 2))
  ∧ (0 <= oneSixth < count)%Z
  ∧ tt_min (twoThird result) = at_ sorted oneSixth
  ∧ orderingChain result
  ∧ ∃ lowest highest,
      res_min result = Num lowest ∧ res_max result = Num highest
      ∧ addable lowest ∧ addable highest.
Proof.
  intros Hrun Hrow Hvalues Hrange.
  destruct (calculateProject_Ok _ _ _ _ _ Hrun)
    as (requiredAmount & row' & bucketList & valuesByGroup
        & _ & Hrow' & Hloop & _ & _ & _ & Hmin & Htmin & Hmedian & Htmax & Hmax).
  assert (row' = row) as -> by congruence.
  set (sorted := Array_sort Qle_bool row) in *.
  assert (1 <= len sorted)%Z as Hone.
  { unfold sorted, len. rewrite Array_sort_length. destruct row; [done|simpl; lia]. }
  assert (5 <= len sorted)%Z as Hfive.
  { destruct (Z.le_gt_cases 5 (len sorted)) as [|Hfew]; [done|].
    rewrite bucketSize_spec in Hloop.
    replace ((len sorted + 5) / 10)%Z with 0%Z in Hloop by divlia.
    rewrite bucketLoop_no_progress in Hloop; [done|lia]. }
  cbv zeta. split; [apply Array_sort_Permutation|]. split; [apply Array_sort_ascending|].
  split; [exact Hmin|]. split; [exact Hmax|].
  split; [|split; [|split; [|split; [exact Htmin|]]]].
  - intros Hodd. rewrite Hmedian. unfold median.
    destruct (Z.eqb_spec (len sorted mod 2) 0) as [Heven|_]; [lia|done].
  - intros Heven. rewrite Hmedian. unfold median.
    destruct (Z.eqb_spec (len sorted mod 2) 0) as [_|Hodd]; [done|lia].
  - rewrite oneSixth_spec. divlia.
  - split.
    + unfold orderingChain. rewrite Hmin, Htmin, Hmedian, Htmax, Hmax.
      apply statistics_chain; [apply Array_sort_ascending|done].
    + destruct (at_in_range sorted 0) as (lowest & Hlowest & Hfirst); [lia|].
      destruct (at_in_range sorted (len sorted - 1)) as (highest & Hhighest & Hlast); [lia|].
      exists lowest, highest. rewrite Hmin, Hmax. split; [done|]. split; [done|].
      rewrite Forall_forall in Hrange.
      split; apply Hrange; rewrite <- (Array_sort_Permutation Qle_bool row);
        by eapply list_elem_of_lookup_2.
Qed.

(** Where [twoThird.max] is read: at position [length - oneSixth], so
    that [oneSixth - 1] values lie behind it.  In a row of six values it is
    the largest value, while [twoThird.min] is the second smallest. *)
Lemma calculateProject_twoThird_positions fuel p environment result environment' row :
  calculateProject deref fuel p environment = Ok (result, environment') →
  index (simulatedValues environment) (startYear (deref p)) = Some row →
  let sorted := Array_sort Qle_bool row in
  let oneSixth := Math_round (inject_Z (len sorted) / 6) in
  tt_min (twoThird result) = at_ sorted oneSixth
  ∧ tt_max (twoThird result) = at_ sorted (len sorted - oneSixth)
  ∧ (len row = 6%Z →
     tt_min (twoThird result) = at_ sorted 1 ∧ tt_max (twoThird result) = res_max result).
Proof.
  intros Hrun Hrow.
  destruct (calculateProject_Ok _ _ _ _ _ Hrun)
    as (requiredAmount & row' & bucketList & valuesByGroup
        & _ & Hrow' & _ & _ & _ & _ & _ & Htmin & _ & Htmax & Hmax).
  assert (row' = row) as -> by congruence.
  cbv zeta in *. split; [exact Htmin|]. split; [exact Htmax|].
  intros Hsix.
  assert (len (Array_sort Qle_bool row) = 6%Z) as Hlen.
  { unfold len in *. by rewrite Array_sort_length. }
  rewrite Htmin, Htmax, Hmax, Hlen, oneSixth_spec. done.
Qed.
End Aggregation.

(** ** The synchronous driver *)

(** The default number of runs, 10000, gives ten buckets of 1000 values. *)
Lemma fullBuckets_default : fullBuckets 10000 ∧ (10000 / ((10000 + 5) / 10) = 10)%Z.
Proof. by vm_compute. Qed.

Section Driver.
Variable deref : ref → IProject.
Variable random : nat → Q → Q → Q.

Lemma syncMonteCarlo_unfold fuel options σ :
  syncMonteCarlo deref random fuel (Some options) σ
  = '(environment, σ2) ←
      createMonteCarloEnvironment deref random
        (initializeOptions (Some options) σ).1 (initializeOptions (Some options) σ).2;
    match opt_projects options with
    | None => Throw TypeError
    | Some projects =>
        '(results, _) ← calculateProjects deref fuel (read σ2 projects) environment [];
        Ok (results, σ2)
    end.
Proof. reflexivity. Qed.

(** The array literal of the defaults does not disturb the caller's
    array. *)
Lemma read_initializeOptions options σ l :
  read (initializeOptions options σ).2 l = read σ l.
Proof.
  unfold read. simpl. destruct (decide (fresh (dom σ) = l)) as [<-|Hne].
  - rewrite lookup_insert_eq. by rewrite (proj1 (not_elem_of_dom σ _) (is_fresh _)).
  - by rewrite lookup_insert_ne.
Qed.

Lemma initializeOptions_unpartitioned options σ :
  unpartitioned (initializeOptions options σ).1.
Proof. reflexivity. Qed.

(** The results come in the order in which the projects are visited. *)
Lemma calculateProjects_projects fuel l environment done results environment' :
  calculateProjects deref fuel l environment done = Ok (results, environment') →
  project <$> results = (project <$> done) ++ l.
Proof.
  revert environment done.
  induction l as [|p l IH]; intros environment done H; simpl in H.
  - injection H as <- _. by rewrite app_nil_r.
  - destruct (calculateProject deref fuel p environment) as [[result next]| |] eqn:Hp;
      cbn [mbind outcome_mbind outcome_bind] in H; try done.
    apply IH in H. rewrite H, fmap_app. simpl.
    destruct (calculateProject_Ok _ _ _ _ _ _ Hp) as (? & ? & ? & ? & _ & _ & _ & _ & -> & _).
    by rewrite <- app_assoc.
Qed.

(** Every project that is visited needs a row of simulated values. *)
Lemma calculateProjects_rows fuel l environment done results environment' p :
  calculateProjects deref fuel l environment done = Ok (results, environment') →
  p ∈ l →
  (0 <= startYear (deref p) < len (simulatedValues environment))%Z.
Proof.
  revert environment done.
  induction l as [|q l IH]; intros environment done H Hp; simpl in H.
  - by apply not_elem_of_nil in Hp.
  - destruct (calculateProject deref fuel q environment) as [[result next]| |] eqn:Hq;
      cbn [mbind outcome_mbind outcome_bind] in H; try done.
    destruct (calculateProject_Ok _ _ _ _ _ _ Hq)
      as (? & row & ? & ? & _ & Hindex & _ & -> & _).
    apply index_Some in Hindex as [Hyear Hrow].
    apply elem_of_cons in Hp as [->|Hp].
    + apply lookup_lt_Some in Hrow. unfold len. lia.
    + specialize (IH _ _ H Hp). unfold len in *. simpl in IH.
      rewrite length_insert in IH. lia.
Qed.

(** What a run of [syncMonteCarlo] that returns went through. *)
Lemma syncMonteCarlo_Ok fuel options σ l results σ' :
  opt_projects options = Some l →
  syncMonteCarlo deref random fuel (Some options) σ = Ok (results, σ') →
  let sorted := Array_sort (byStartYear deref) (read σ l) in
  ∃ environment final,
    createMonteCarloEnvironment deref random
      (initializeOptions (Some options) σ).1 (initializeOptions (Some options) σ).2
    = Ok (environment, σ')
    ∧ read σ' l = sorted
    ∧ calculateProjects deref fuel sorted environment [] = Ok (results, final).
Proof.
  intros Hl. rewrite syncMonteCarlo_unfold, Hl. intros H.
  destruct (createMonteCarloEnvironment _ _ _ _) as [[environment σ2]| |] eqn:Henv;
    cbn [mbind outcome_mbind outcome_bind] in H; try done.
  destruct (calculateProjects _ _ _ _ _) as [[results' final]| |] eqn:Hloop;
    cbn [mbind outcome_mbind outcome_bind] in H; try done.
  injection H as -> ->.
  destruct (createMonteCarloEnvironment_Ok deref random _ _ _ _
              (initializeOptions_unpartitioned _ _) Henv) as (Hσ & _).
  assert (read σ' l = Array_sort (byStartYear deref) (read σ l)) as Hread.
  { assert (projects (initializeOptions (Some options) σ).1 = l) as Hprojects.
    { simpl. by rewrite Hl. }
    rewrite Hσ, Hprojects, read_initializeOptions. unfold read at 1.
    by rewrite lookup_insert_eq. }
  exists environment, final. rewrite Hread in Hloop. by repeat split.
Qed.

Lemma ready_withSortedRow environment year sorted p :
  ready deref environment p → ready deref (withSortedRow environment year sorted) p.
Proof.
  unfold ready, len. simpl. by rewrite length_insert.
Qed.

(** The reference line never holds NaN. *)
Lemma referenceLine_not_NaN input numYears investmentAmount (year : Z) :
  default Undefined
    (index (calculateNoInterestReferenceLine
              (projectsToCashFlows deref (groupBy deref input) numYears)
              investmentAmount numYears) year) ≠ NaN.
Proof.
  unfold index. destruct (Z.ltb_spec year 0); [done|].
  destruct (decide (year < numYears)%Z) as [Hin|Hout].
  - destruct (noInterestLoop_lookup
                (projectsToCashFlows deref (groupBy deref input) numYears)
                (Z.to_nat numYears) 0 investmentAmount (Z.to_nat year))
      as (balance & Hline & _); [lia|rewrite projectsToCashFlows_length; lia|].
    unfold calculateNoInterestReferenceLine. by rewrite Hline.
  - rewrite lookup_ge_None_2; [done|].
    rewrite calculateNoInterestReferenceLine_length. lia.
Qed.

(** Enough fuel gives the results: when every row has [runs] values, the
    strides fit [runs] and every project is ready, the loop of the driver
    returns one result per project. *)
Lemma calculateProjects_returns fuel runs l :
  fullBuckets runs → (runs / ((runs + 5) / 10) <= Z.of_nat fuel)%Z →
  ∀ environment done,
    Forall (λ row, len row = runs) (simulatedValues environment) →
    (∀ p, p ∈ l → ready deref environment p) →
    ∃ results environment',
      calculateProjects deref fuel l environment done = Ok (results, environment')
      ∧ length results = length done + length l.
Proof.
  intros Hfit Hfuel.
  induction l as [|p l IH]; intros environment done Hrows Hready; simpl.
  - exists done, environment. split; [done|lia].
  - destruct (Hready p) as (Hgroup & Hyear & Hreference); [by left|].
    destruct (lookup_lt_is_Some_2 (simulatedValues environment)
                (Z.to_nat (startYear (deref p)))) as [row Hrow]; [unfold len in Hyear; lia|].
    assert (len row = runs) as Hlen.
    { by apply (Forall_lookup_1 _ _ _ _ Hrows Hrow). }
    destruct (calculateProject_returns deref fuel p environment row) as (result & -> & _).
    { done. }
    { apply index_Some. split; [lia|done]. }
    { by rewrite Hlen. }
    { by rewrite Hlen. }
    cbn [mbind outcome_mbind outcome_bind].
    destruct (IH (withSortedRow environment (startYear (deref p)) (Array_sort Qle_bool row))
                (done ++ [result])) as (results & environment' & -> & Hcount).
    + simpl. apply Forall_insert; [done|].
      unfold len. rewrite Array_sort_length. exact Hlen.
    + intros q Hq. apply ready_withSortedRow, Hready. by right.
    + exists results, environment'. split; [done|].
      rewrite Hcount, length_app. simpl. lia.
Qed.

(** X1. Enough fuel gives the result list. [syncMonteCarlo] returns
    one result per project as soon as the fuel covers the buckets of a row,
    for options with at most 1000 years, a number of runs that is the
    length of an array and that the strides fit (10000, the default, is
    one), and every start year between 0 and [numYears].  The last three
    hypotheses keep the run where exact numbers stand for the doubles of
    the program: no year halves the index or more than doubles it, so no
    index reaches 0 or leaves the range of the doubles, and no
    [totalAmount] is negative and no year's total exceeds
    [Number.MAX_VALUE / 2], so every cash flow is a finite number. *)
Lemma syncMonteCarlo_returns fuel options σ l :
  let years := default 10%Z (opt_numYears options) in
  let runs := default 10000%Z (opt_numRuns options) in
  let performance := default 0%Q (opt_performance options) in
  let volatility := default (1 # 100)%Q (opt_volatility options) in
  opt_projects options = Some l →
  (0 <= years <= 1000)%Z → arrayLength runs → fullBuckets runs →
  (runs / ((runs + 5) / 10) <= Z.of_nat fuel)%Z →
  (∀ p, p ∈ read σ l → (0 <= startYear (deref p) <= years)%Z) →
  (∀ call, 1 # 2 <= 1 + random call performance volatility <= 2)%Q →
  (∀ p, p ∈ read σ l → 0 <= totalAmount (deref p))%Q →
  (∀ year, outflow deref (read σ l) year <= MAX_VALUE / 2)%Q →
  ∃ results σ',
    syncMonteCarlo deref random fuel (Some options) σ = Ok (results, σ')
    ∧ length results = length (read σ l).
Proof.
  intros years runs performance volatility Hl Hyears Hruns Hfit Hfuel Hvalid _ _ _.
  rewrite syncMonteCarlo_unfold, Hl.
  destruct (createMonteCarloEnvironment_total deref random
              (initializeOptions (Some options) σ).1 (initializeOptions (Some options) σ).2)
    as (environment & σ2 & Henv & _ & _ & Hcount & Hrows & _);
    [unfold arrayLength; simpl; fold years; lia|exact Hruns|].
  rewrite Henv. cbn [mbind outcome_mbind outcome_bind].
  destruct (createMonteCarloEnvironment_Ok deref random _ _ _ _
              (initializeOptions_unpartitioned _ _) Henv)
    as (Hσ & Hgroups & Hline & _).
  assert (projects (initializeOptions (Some options) σ).1 = l) as Hprojects.
  { simpl. by rewrite Hl. }
  rewrite Hprojects, read_initializeOptions in Hσ, Hgroups, Hline.
  assert (read σ2 l = Array_sort (byStartYear deref) (read σ l)) as ->.
  { rewrite Hσ. unfold read at 1. by rewrite lookup_insert_eq. }
  destruct (calculateProjects_returns fuel runs
              (Array_sort (byStartYear deref) (read σ l)) Hfit Hfuel environment [])
    as (results & environment' & -> & Hlength).
  - exact Hrows.
  - intros p Hp. unfold ready. rewrite Hgroups, Hline, Hcount. repeat split.
    + rewrite groupBy_lookup.
      assert (p ∈ startingIn deref (startYear (deref p))
                    (Array_sort (byStartYear deref) (read σ l))) as Hin.
      { unfold startingIn. by apply list_elem_of_filter. }
      destruct (startingIn _ _ _); [by apply not_elem_of_nil in Hin|by eexists].
    + rewrite Array_sort_Permutation in Hp. apply Hvalid in Hp. lia.
    + rewrite Array_sort_Permutation in Hp. apply Hvalid in Hp. simpl. fold years. lia.
    + apply referenceLine_not_NaN.
  - cbn [mbind outcome_mbind outcome_bind]. exists results, σ2. split; [done|].
    rewrite Hlength, Array_sort_length. simpl. lia.
Qed.



(** C1, what the code does. The list that [syncMonteCarlo] returns has
    one result per project, in the order of the projects sorted by start
    year (projects of the same year in input order), not in input order:
    the caller's array has been sorted in place before the driver iterates
    over it. *)
Theorem syncMonteCarlo_results_in_sorted_order fuel options σ l results σ' :
  opt_projects options = Some l →
  syncMonteCarlo deref random fuel (Some options) σ = Ok (results, σ') →
  project <$> results = Array_sort (byStartYear deref) (read σ l)
  ∧ length results = length (read σ l)
  ∧ read σ' l = Array_sort (byStartYear deref) (read σ l).
Proof.
  intros Hl Hrun.
  destruct (syncMonteCarlo_Ok _ _ _ _ _ _ Hl Hrun) as (environment & final & _ & Hread & Hloop).
  apply calculateProjects_projects in Hloop. simpl in Hloop.
  repeat split; [done| |done].
  rewrite <- (length_fmap project), Hloop. apply Array_sort_length.
Qed.

(** C7, as the code has it. Initialization checks nothing and cannot
    fail; what an invalid configuration does shows later. A negative
    [numYears] or [numRuns] raises a RangeError when the matrix of simulated
    values is allocated, and a project whose start year is negative or
    larger than [numYears] keeps the driver from returning a result list.
    (A missing volatility, [numYears] or [numRuns] equal to 0 and a start
    year equal to [numYears] are not rejected.) *)
Theorem syncMonteCarlo_invalid_options fuel options σ :
  let years := default 10%Z (opt_numYears options) in
  let runs := default 10000%Z (opt_numRuns options) in
  ((years < 0)%Z ∨ (runs < 0)%Z →
   syncMonteCarlo deref random fuel (Some options) σ = Throw RangeError)
  ∧ (∀ l p, opt_projects options = Some l → p ∈ read σ l →
       (startYear (deref p) < 0)%Z ∨ (years < startYear (deref p))%Z →
       ∀ results σ', syncMonteCarlo deref random fuel (Some options) σ ≠ Ok (results, σ')).
Proof.
  intros years runs.
  assert ((years < 0)%Z ∨ (runs < 0)%Z →
          syncMonteCarlo deref random fuel (Some options) σ = Throw RangeError) as Hrange.
  { intros H. rewrite syncMonteCarlo_unfold.
    by rewrite createMonteCarloEnvironment_RangeError. }
  split; [exact Hrange|].
  intros l p Hl Hp Hyear results σ' Hrun.
  destruct (Z.lt_ge_cases years 0) as [|Hyears]; [rewrite Hrange in Hrun; by auto|].
  destruct (Z.lt_ge_cases runs 0) as [|Hruns]; [rewrite Hrange in Hrun; by auto|].
  destruct (syncMonteCarlo_Ok _ _ _ _ _ _ Hl Hrun) as (environment & final & Henv & _ & Hloop).
  destruct (createMonteCarloEnvironment_arrayLength deref random _ _ _ _ Henv)
    as [Hlength Hlength'].
  destruct (createMonteCarloEnvironment_total deref random
              (initializeOptions (Some options) σ).1 (initializeOptions (Some options) σ).2)
    as (environment0 & σ0 & Henv0 & _ & _ & Hrows & _); [done..|].
  rewrite Henv in Henv0. injection Henv0 as <- <-.
  assert (p ∈ Array_sort (byStartYear deref) (read σ l)) as Hsorted.
  { by rewrite Array_sort_Permutation. }
  pose proof (calculateProjects_rows _ _ _ _ _ _ _ Hloop Hsorted) as Hrow.
  rewrite Hrows in Hrow. simpl in Hrow. fold years in Hrow. lia.
Qed.
End Driver.

(** ** The scenarios, run *)

(** Failing input of C1: the project that starts in year 1 comes first in
    the caller's array, and its result comes last; the caller's array has
    been reordered as well. *)
Lemma syncMonteCarlo_late_project_first :
  opt_projects (optionsWith 0 2 5) = Some 0
  ∧ read twoProjects 0 = [0; 1]
  ∧ ∃ results σ',
      syncMonteCarlo lateFirst cyclicRandom 5 (Some (optionsWith 0 2 5)) twoProjects
      = Ok (results, σ')
      ∧ project <$> results = [1; 0]
      ∧ read σ' 0 = [1; 0].
Proof.
  assert (opt_projects (optionsWith 0 2 5) = Some 0) as Hl by reflexivity.
  split; [exact Hl|]. split; [vm_compute; reflexivity|].
  destruct (syncMonteCarlo lateFirst cyclicRandom 5 (Some (optionsWith 0 2 5)) twoProjects)
    as [[results σ']| |] eqn:Hrun; [|vm_compute in Hrun; discriminate..].
  destruct (syncMonteCarlo_results_in_sorted_order lateFirst cyclicRandom 5
              (optionsWith 0 2 5) twoProjects 0 results σ' Hl Hrun)
    as (Horder & _ & Hread).
  exists results, σ'. split; [reflexivity|]. rewrite Horder, Hread.
  split; vm_compute; reflexivity.
Defined.

(** Failing input of C3: one run. The row of year 0 holds the single value
    1000000 and [calculateProject] does not return, whatever the fuel. *)
Lemma calculateProject_single_value_diverges :
  ∃ environment,
    builtFor scenarioA (optionsWith 0 1 1) oneProject = Some environment
    ∧ projectsByStartYear environment !! startYear (scenarioA 0) = Some [0]
    ∧ index (simulatedValues environment) (startYear (scenarioA 0)) = Some [1000000%Q]
    ∧ (1 <= len [1000000%Q] <= 4)%Z
    ∧ ∀ fuel result environment',
        calculateProject scenarioA fuel 0 environment ≠ Ok (result, environment')
        ∧ calculateProject scenarioA fuel 0 environment = OutOfFuel.
Proof.
  eexists. split; [vm_compute; reflexivity|].
  assert (1 <= len [1000000%Q] <= 4)%Z as Hlen by (vm_compute; split; discriminate).
  match goal with
  | |- ?A ∧ ?B ∧ _ =>
      assert A as Hgroup by (vm_compute; reflexivity);
      assert B as Hrow by (vm_compute; reflexivity)
  end.
  split; [exact Hgroup|]. split; [exact Hrow|]. split; [exact Hlen|].
  intros fuel result environment'.
  exact (calculateProject_few_values_diverges scenarioA fuel 0 _ [0] [1000000%Q]
           Hgroup Hrow Hlen result environment').
Defined.

Lemma calculateProjects_cons deref fuel p l environment done :
  calculateProjects deref fuel (p :: l) environment done
  = '(result, environment') ← calculateProject deref fuel p environment;
    calculateProjects deref fuel l environment' (done ++ [result]).
Proof. reflexivity. Qed.

(** Scenario C at the driver: with one run and one project,
    [syncMonteCarlo] does not return. *)
Lemma syncMonteCarlo_single_run_diverges (fuel : nat) :
  syncMonteCarlo scenarioA cyclicRandom fuel (Some (optionsWith 0 1 1)) oneProject = OutOfFuel.
Proof.
  rewrite syncMonteCarlo_unfold.
  destruct (createMonteCarloEnvironment _ _ _ _) as [[environment σ2]| |] eqn:Henv;
    vm_compute in Henv; try discriminate.
  injection Henv as <- <-.
  cbn [mbind outcome_mbind outcome_bind optionsWith opt_projects].
  match goal with
  | |- context [read ?s 0] => replace (read s 0) with [0] by (vm_compute; reflexivity)
  end.
  rewrite calculateProjects_cons.
  rewrite (calculateProject_no_progress scenarioA fuel 0 _ [0] [1000000%Q]);
    [reflexivity|vm_compute; reflexivity..|vm_compute; split; discriminate].
Qed.

(** Five runs, the project of year 1: the call returns and has sorted row
    1. *)
Lemma calculateProject_sorts_row_in_place_run :
  ∃ environment result environment',
    builtFor lateFirst (optionsWith 0 2 5) twoProjects = Some environment
    ∧ calculateProject lateFirst 5 0 environment = Ok (result, environment')
    ∧ ∃ row,
        simulatedValues environment !! 1 = Some row
        ∧ simulatedValues environment' !! 1 = Some (Array_sort Qle_bool row)
        ∧ Array_sort Qle_bool row ≡ₚ row
        ∧ simulatedValues environment' !! 0 = simulatedValues environment !! 0
        ∧ noInterestReferenceLine environment' = noInterestReferenceLine environment.
Proof.
  destruct (builtFor lateFirst (optionsWith 0 2 5) twoProjects) as [environment|] eqn:Henv;
    [|vm_compute in Henv; discriminate].
  destruct (calculateProject lateFirst 5 0 environment) as [[result environment']| |] eqn:Hrun;
    [|vm_compute in Henv; injection Henv as <-; vm_compute in Hrun; discriminate..].
  exists environment, result, environment'. split; [reflexivity|]. split; [exact Hrun|].
  destruct (calculateProject_sorts_row_in_place lateFirst 5 0 environment result environment' Hrun)
    as (row & _ & Hrow & Hsorted & Hperm & _ & Hother & _ & _ & _ & Hline & _).
  exists row. repeat split; try done. by apply Hother.
Defined.

(** Counterexample to C8: the same call finds row 1 of the environment
    unsorted and leaves it sorted. *)
Lemma calculateProject_changes_environment :
  match builtFor lateFirst (optionsWith 0 2 5) twoProjects with
  | Some environment =>
      match calculateProject lateFirst 5 0 environment with
      | Ok (_, environment') =>
          simulatedValues environment !! 1
          = Some [980100; 999900; 990000; 980100; 999900]%Q
          ∧ simulatedValues environment' !! 1
            = Some [980100; 980100; 990000; 999900; 999900]%Q
          ∧ simulatedValues environment' ≠ simulatedValues environment
      | _ => False
      end
  | None => False
  end.
Proof. vm_compute. repeat split. discriminate. Qed.

(** The caller's array is written as well: [createMonteCarloEnvironment]
    leaves it sorted by start year. *)
Lemma createMonteCarloEnvironment_sorts_callers_array :
  read twoProjects 0 = [0; 1]
  ∧ match createMonteCarloEnvironment lateFirst cyclicRandom
            (initializeOptions (Some (optionsWith 0 2 5)) twoProjects).1
            (initializeOptions (Some (optionsWith 0 2 5)) twoProjects).2 with
    | Ok (_, σ') => read σ' 0 = [1; 0]
    | _ => False
    end.
Proof. vm_compute. by split. Qed.

(** Five runs, the project of year 1: the ordering chain holds. *)
Lemma calculateProject_ordering_chain_run :
  ∃ environment result environment' row,
    builtFor lateFirst (optionsWith 0 2 5) twoProjects = Some environment
    ∧ calculateProject lateFirst 5 0 environment = Ok (result, environment')
    ∧ index (simulatedValues environment) (startYear (lateFirst 0)) = Some row
    ∧ row ≠ []
    ∧ orderingChain result
    ∧ res_min result = Num 980100 ∧ res_median result = Num 990000
    ∧ res_max result = Num 999900.
Proof.
  destruct (builtFor lateFirst (optionsWith 0 2 5) twoProjects) as [environment|] eqn:Henv;
    [|vm_compute in Henv; discriminate].
  destruct (calculateProject lateFirst 5 0 environment) as [[result environment']| |] eqn:Hrun;
    [|vm_compute in Henv; injection Henv as <-; vm_compute in Hrun; discriminate..].
  destruct (index (simulatedValues environment) (startYear (lateFirst 0))) as [row|] eqn:Hrow;
    [|vm_compute in Henv; injection Henv as <-; vm_compute in Hrow; discriminate].
  assert (row ≠ []) as Hvalues.
  { vm_compute in Henv. injection Henv as <-. vm_compute in Hrow. injection Hrow as <-.
    discriminate. }
  assert (Forall addable row) as Hrange.
  { vm_compute in Henv. injection Henv as <-. vm_compute in Hrow. injection Hrow as <-.
    repeat constructor; vm_compute; discriminate. }
  exists environment, result, environment', row.
  split; [reflexivity|]. split; [exact Hrun|]. split; [exact Hrow|]. split; [exact Hvalues|].
  split.
  - apply (calculateProject_ordering_chain lateFirst 5 0 environment result environment' row
             Hrun Hrow Hvalues Hrange).
  - vm_compute in Henv. injection Henv as <-. vm_compute in Hrun. injection Hrun as <- _.
    repeat split.
Defined.

(** Counterexample to C9: with no run at all the row of the year is empty;
    the call returns a result whose min and max are undefined and whose
    median is NaN, so no ordering holds between them. *)
Lemma calculateProject_empty_row :
  match builtFor lateFirst (optionsWith 0 2 0) twoProjects with
  | Some environment =>
      match calculateProject lateFirst 5 0 environment with
      | Ok (result, _) =>
          res_min result = Undefined ∧ res_median result = NaN ∧ res_max result = Undefined
          ∧ ¬ orderingChain result
          ∧ js_le (res_min result) (tt_min (twoThird result)) = false
      | _ => False
      end
  | None => False
  end.
Proof.
  vm_compute. repeat split. intros (? & ? & ? & ? & ? & H & _). discriminate H.
Qed.

(** A negative [numYears] ends in a RangeError, and a project of year 1
    with [numYears] = 0 ends without a result list. *)
Lemma syncMonteCarlo_invalid_options_run :
  ((default 10 (opt_numYears (optionsWith 0 (-1) 5)) < 0)%Z
   ∨ (default 10000 (opt_numRuns (optionsWith 0 (-1) 5)) < 0)%Z)
  ∧ syncMonteCarlo lateFirst cyclicRandom 5 (Some (optionsWith 0 (-1) 5)) twoProjects
    = Throw RangeError
  ∧ opt_projects (optionsWith 0 0 5) = Some 0
  ∧ 0 ∈ read twoProjects 0
  ∧ (default 10 (opt_numYears (optionsWith 0 0 5)) < startYear (lateFirst 0))%Z
  ∧ ∀ results σ',
      syncMonteCarlo lateFirst cyclicRandom 5 (Some (optionsWith 0 0 5)) twoProjects
      ≠ Ok (results, σ').
Proof.
  assert ((default 10 (opt_numYears (optionsWith 0 (-1) 5)) < 0)%Z
          ∨ (default 10000 (opt_numRuns (optionsWith 0 (-1) 5)) < 0)%Z) as Hnegative.
  { left. reflexivity. }
  assert (opt_projects (optionsWith 0 0 5) = Some 0) as Hl by reflexivity.
  assert (0 ∈ read twoProjects 0) as Hin.
  { replace (read twoProjects 0) with [0; 1] by (vm_compute; reflexivity).
    apply elem_of_cons. by left. }
  assert (default 10 (opt_numYears (optionsWith 0 0 5)) < startYear (lateFirst 0))%Z as Hlate.
  { reflexivity. }
  split; [exact Hnegative|]. split.
  - exact (proj1 (syncMonteCarlo_invalid_options lateFirst cyclicRandom 5
                    (optionsWith 0 (-1) 5) twoProjects) Hnegative).
  - split; [exact Hl|]. split; [exact Hin|]. split; [exact Hlate|].
    exact (proj2 (syncMonteCarlo_invalid_options lateFirst cyclicRandom 5
                    (optionsWith 0 0 5) twoProjects) 0 0 Hl Hin (or_intror Hlate)).
Defined.

(** Counterexample to C7: no volatility and a project whose start year
    equals [numYears] = 1, and then no run at all: initialization raises
    nothing and the driver returns a result for every project. *)
Lemma syncMonteCarlo_accepts_invalid_options :
  opt_volatility (optionsWith 0 1 5) = None
  ∧ (startYear (lateFirst 0) >= 1)%Z
  ∧ match syncMonteCarlo lateFirst cyclicRandom 5 (Some (optionsWith 0 1 5)) twoProjects with
    | Ok (results, _) =>
        project <$> results = [1; 0]
        ∧ res_min <$> results = [Num 1000000; Num 980100]
        ∧ res_max <$> results = [Num 1000000; Num 999900]
    | _ => False
    end
  ∧ match syncMonteCarlo lateFirst cyclicRandom 5 (Some (optionsWith 0 1 0)) twoProjects with
    | Ok (results, _) => res_median <$> results = [NaN; NaN]
    | _ => False
    end.
Proof. vm_compute. repeat split; discriminate. Qed.

(** Fifteen runs: the bucket size is 2 and the last stride reads the
    position after the row. No band contains [undefined], and [group.name]
    raises a TypeError. *)
Lemma syncMonteCarlo_partial_stride_throws :
  groupForValue Undefined (createGroups 100000 (Num 900000) 10000) = None
  ∧ syncMonteCarlo scenarioA cyclicRandom 15 (Some (optionsWith 0 1 15)) oneProject
    = Throw TypeError.
Proof. split; vm_compute; reflexivity. Qed.

(** * The aggregation of one project, value by value *)

(** ** Counting the values of a band *)

Lemma tally_cons bands band value values :
  tally bands band (value :: values)
  = ((if decide (bandOf bands value = Some band) then 1 else 0) + tally bands band values)%Z.
Proof.
  unfold tally, chunkOf, len. rewrite filter_cons. case_decide; simpl; lia.
Qed.

Lemma tally_app bands band l1 l2 :
  tally bands band (l1 ++ l2) = (tally bands band l1 + tally bands band l2)%Z.
Proof. unfold tally, chunkOf, len. rewrite filter_app, length_app. lia. Qed.

Lemma tally_Permutation bands band l1 l2 :
  l1 ≡ₚ l2 → tally bands band l1 = tally bands band l2.
Proof. intros Hperm. unfold tally, chunkOf, len. by rewrite Hperm. Qed.

Lemma chunkOf_app bands band l1 l2 :
  chunkOf bands band (l1 ++ l2) = chunkOf bands band l1 ++ chunkOf bands band l2.
Proof. apply filter_app. Qed.

Lemma gather_app band found l1 l2 :
  gather band found (l1 ++ l2) = gather band (gather band found l1) l2.
Proof. apply foldl_app. Qed.

Lemma gather_Some band subBucket values :
  gather band (Some subBucket) values
  = Some {| sb_group := sb_group subBucket;
            sb_min := foldl Math_min (sb_min subBucket) (Num <$> values);
            sb_max := foldl Math_max (sb_max subBucket) (Num <$> values) |}.
Proof.
  revert subBucket. induction values as [|value values IH]; intros subBucket.
  - by destruct subBucket.
  - unfold gather in *. cbn [foldl default from_option id]. by rewrite IH.
Qed.

Lemma gather_None band values : gather band None values = subBucketOf band values.
Proof.
  destruct values as [|value values]; [done|].
  unfold gather. cbn [foldl].
  fold (gather band (Some (widen (default (emptySubBucket band) None) value)) values).
  by rewrite gather_Some.
Qed.

(** ** The loops of [calculateProject] *)

(** One pass of the inner loop over a position that holds [value]. *)
Lemma bucketStep_found (values : list Q) bands bucket valuesByGroup (j : Z) value group :
  at_ values j = Num value →
  groupForValue (Num value) bands = Some group →
  ∃ bucket' valuesByGroup',
    bucketStep values bands (bucket, valuesByGroup) j = Ok (bucket', valuesByGroup')
    ∧ (∀ band, default 0%Z (valuesByGroup' !! band)
               = (default 0 (valuesByGroup !! band)
                  + if decide (bandOf bands value = Some band) then 1 else 0)%Z)
    ∧ bucket_min bucket' = Math_min (bucket_min bucket) (Num value)
    ∧ bucket_max bucket' = Math_max (bucket_max bucket) (Num value)
    ∧ (∀ band, subBuckets bucket' !! band
               = gather band (subBuckets bucket !! band) (chunkOf bands band [value])).
Proof.
  intros Hvalue Hgroup. unfold bucketStep. rewrite Hvalue, Hgroup.
  eexists _, _. split; [reflexivity|]. split; [|split; [done|split; [done|]]].
  - intros band. unfold bandOf. rewrite Hgroup. simpl.
    destruct (decide (name group = band)) as [<-|Hne].
    + rewrite lookup_insert_eq, decide_True by done. simpl. lia.
    + rewrite lookup_insert_ne, decide_False by congruence. lia.
  - intros band. unfold chunkOf, bandOf. rewrite filter_cons, filter_nil, Hgroup.
    cbn [fmap option_fmap option_map subBuckets].
    destruct (decide (name group = band)) as [<-|Hne].
    + rewrite lookup_insert_eq, decide_True by done. done.
    + rewrite lookup_insert_ne, decide_False by congruence. done.
Qed.

(** The inner loop over [k] positions that lie inside the row. *)
Lemma stride_Ok (values : list Q) requiredAmount reference liquidity (k : nat) :
  reference ≠ NaN →
  ∀ (i : Z) bucket valuesByGroup,
    (0 <= i)%Z → (i + Z.of_nat k <= len values)%Z →
    let bands := createGroups requiredAmount reference liquidity in
    let chunk := take k (drop (Z.to_nat i) values) in
    ∃ bucket' valuesByGroup',
      foldlM (bucketStep values bands) (bucket, valuesByGroup) (seqZ i (Z.of_nat k))
      = Ok (bucket', valuesByGroup')
      ∧ (∀ band, default 0%Z (valuesByGroup' !! band)
                 = (default 0 (valuesByGroup !! band) + tally bands band chunk)%Z)
      ∧ bucket_min bucket' = foldl Math_min (bucket_min bucket) (Num <$> chunk)
      ∧ bucket_max bucket' = foldl Math_max (bucket_max bucket) (Num <$> chunk)
      ∧ (∀ band, subBuckets bucket' !! band
                 = gather band (subBuckets bucket !! band) (chunkOf bands band chunk)).
Proof.
  intros Hreference. set (bands := createGroups requiredAmount reference liquidity).
  induction k as [|k IH]; intros i bucket valuesByGroup Hi Hlen; cbv zeta.
  - exists bucket, valuesByGroup. split; [done|]. rewrite take_0.
    repeat split; try done. intros band. unfold tally, len. simpl. lia.
  - destruct (at_in_range values i) as (value & Hvalue & Hlookup); [lia|].
    destruct (groupForValue_finds requiredAmount liquidity value reference Hreference)
      as (group & Hgroup & _).
    destruct (bucketStep_found values bands bucket valuesByGroup i value group Hvalue Hgroup)
      as (bucket1 & valuesByGroup1 & Hstep & Hcount & Hmin & Hmax & Hsub).
    destruct (IH (i + 1)%Z bucket1 valuesByGroup1) as
      (bucket' & valuesByGroup' & Hrest & Hcount' & Hmin' & Hmax' & Hsub'); [lia|lia|].
    exists bucket', valuesByGroup'.
    rewrite seqZ_cons by lia. cbn [foldlM]. rewrite Hstep. cbn [mbind outcome_mbind outcome_bind].
    replace (Z.pred (Z.of_nat (S k))) with (Z.of_nat k) by lia.
    replace (Z.succ i) with (i + 1)%Z by lia.
    split; [exact Hrest|].
    replace (Z.to_nat (i + 1)) with (S (Z.to_nat i)) in * by lia.
    rewrite (drop_S _ _ _ Hlookup). cbn [take fmap list_fmap foldl].
    split; [|split; [|split]].
    + intros band. rewrite Hcount', Hcount, tally_cons. lia.
    + by rewrite Hmin', Hmin.
    + by rewrite Hmax', Hmax.
    + intros band. rewrite Hsub', Hsub.
      change (value :: take k (drop (S (Z.to_nat i)) values))
        with ([value] ++ take k (drop (S (Z.to_nat i)) values)).
      by rewrite chunkOf_app, gather_app.
Qed.

(** [count] strides of the outer loop that lie inside the row: each adds
    one bucket, which holds what the inner loop found in its chunk. *)
Lemma bucketLoop_strides (values : list Q) requiredAmount reference liquidity (size : nat) :
  reference ≠ NaN → 0 < size →
  let bands := createGroups requiredAmount reference liquidity in
  ∀ (count fuel : nat) (i : nat) bucketList valuesByGroup,
    i + count * size ≤ length values →
    ∃ added valuesByGroup',
      bucketLoop (count + fuel) values bands (Z.of_nat size) (Z.of_nat i)
        bucketList valuesByGroup
      = bucketLoop fuel values bands (Z.of_nat size) (Z.of_nat (i + count * size))
          (bucketList ++ added) valuesByGroup'
      ∧ length added = count
      ∧ (∀ band, default 0%Z (valuesByGroup' !! band)
                 = (default 0 (valuesByGroup !! band)
                    + tally bands band (take (count * size) (drop i values)))%Z)
      ∧ (∀ k, k < count →
           ∃ bucket, added !! k = Some bucket
                     ∧ bucket_min bucket = chunkMin (take size (drop (i + k * size) values))
                     ∧ bucket_max bucket = chunkMax (take size (drop (i + k * size) values))
                     ∧ ∀ band, subBuckets bucket !! band
                               = subBucketOf band
                                   (chunkOf bands band
                                      (take size (drop (i + k * size) values)))).
Proof.
  intros Hreference Hsize bands.
  induction count as [|count IH]; intros fuel i bucketList valuesByGroup Hlen.
  - exists [], valuesByGroup. rewrite app_nil_r, Nat.add_0_r. simpl.
    repeat split; try done; [|lia].
    intros band. unfold tally, len. simpl. lia.
  - cbn [Nat.add bucketLoop].
    destruct (Z.ltb_spec (Z.of_nat i) (len values)); [|unfold len in *; nia].
    cbn [negb].
    destruct (stride_Ok values requiredAmount reference liquidity size Hreference
                (Z.of_nat i)
                {| bucket_min := Num MAX_VALUE; bucket_max := Num MIN_VALUE; subBuckets := ∅ |}
                valuesByGroup)
      as (bucket & valuesByGroup1 & Hstride & Hcount & Hmin & Hmax & Hsub);
      [lia|unfold len; nia|].
    fold bands in Hstride, Hcount, Hsub. rewrite Nat2Z.id in Hcount, Hmin, Hmax, Hsub.
    rewrite Hstride. cbn [mbind outcome_mbind outcome_bind].
    destruct (IH fuel (i + size) (bucketList ++ [bucket]) valuesByGroup1)
      as (added & valuesByGroup' & Hrest & Hadded & Hcount' & Hbuckets); [nia|].
    exists (bucket :: added), valuesByGroup'.
    replace (Z.of_nat i + Z.of_nat size)%Z with (Z.of_nat (i + size)) by lia.
    rewrite Hrest. rewrite <- app_assoc. simpl.
    replace (i + size + count * size) with (i + (size + count * size)) by lia.
    split; [done|]. split; [by rewrite Hadded|]. split.
    + intros band. rewrite Hcount', Hcount.
      rewrite <- (take_take_drop _ size (count * size)), tally_app, drop_drop. lia.
    + intros [|k] Hk.
      * exists bucket. rewrite Nat.add_0_r. repeat split; try done.
        intros band. rewrite Hsub. cbn [subBuckets]. rewrite lookup_empty.
        apply gather_None.
      * destruct (Hbuckets k) as (b & Hb & Hbmin & Hbmax); [lia|].
        exists b. simpl.
        replace (i + (size + k * size)) with (i + size + k * size) by lia. done.
Qed.

(** ** Minimum and maximum of a chunk of a sorted row *)

Lemma foldl_Math_min_below (a : Q) (l : list Q) :
  Forall (λ v, Qle_bool a v = true) l → foldl Math_min (Num a) (Num <$> l) = Num a.
Proof.
  induction 1 as [|v l Hv _ IH]; simpl; [done|]. by rewrite Hv.
Qed.

Lemma chunkMin_ascending (first : Q) (rest : list Q) :
  ascending (first :: rest) →
  chunkMin (first :: rest) = Math_min (Num MAX_VALUE) (Num first).
Proof.
  intros Hsorted. apply StronglySorted_inv in Hsorted as [_ Hfirst].
  unfold chunkMin. simpl. apply foldl_Math_min_below.
  eapply Forall_impl; [exact Hfirst|]. simpl. intros v Hv.
  apply Qle_bool_iff in Hv. apply Qle_bool_iff. Qbool; lra.
Qed.

Lemma foldl_Math_max_last (a final : Q) (l : list Q) :
  Forall (λ v, Qle_bool v final = true) l →
  foldl Math_max (Num a) (Num <$> (l ++ [final])) = Math_max (Num a) (Num final).
Proof.
  intros Hl. revert a. induction Hl as [|v l Hv _ IH]; intros a; simpl; [done|].
  rewrite IH. simpl. f_equal. apply Qle_bool_iff in Hv.
  Qbool; try done; lra.
Qed.

Lemma chunkMax_ascending (chunk : list Q) (final : Q) :
  ascending (chunk ++ [final]) →
  chunkMax (chunk ++ [final]) = Math_max (Num MIN_VALUE) (Num final).
Proof.
  intros Hsorted. apply foldl_Math_max_last.
  apply Forall_forall. intros v Hv.
  exact (StronglySorted_app_1_elem_of _ _ _ _ _ Hsorted Hv (list_elem_of_here _ _)).
Qed.

Lemma ascending_take_drop (values : list Q) (start count : nat) :
  ascending values → ascending (take count (drop start values)).
Proof.
  intros Hsorted. unfold ascending in *.
  rewrite <- (take_drop start values) in Hsorted.
  apply StronglySorted_app_1_r in Hsorted.
  rewrite <- (take_drop count (drop start values)) in Hsorted.
  by apply StronglySorted_app_1_l in Hsorted.
Qed.

Lemma chunk_min_max (values : list Q) (start size : nat) :
  ascending values → 0 < size → start + size ≤ length values →
  chunkMin (take size (drop start values))
  = Math_min (Num MAX_VALUE) (at_ values (Z.of_nat start))
  ∧ chunkMax (take size (drop start values))
    = Math_max (Num MIN_VALUE) (at_ values (Z.of_nat (start + size - 1))).
Proof.
  intros Hsorted Hsize Hlen.
  pose proof (ascending_take_drop values start size Hsorted) as Hchunk.
  destruct (at_in_range values (Z.of_nat start)) as (first & -> & Hfirst);
    [unfold len; lia|].
  destruct (at_in_range values (Z.of_nat (start + size - 1))) as (final & -> & Hfinal);
    [unfold len; lia|].
  rewrite Nat2Z.id in Hfirst, Hfinal.
  assert (length (take size (drop start values)) = size) as Hlength.
  { rewrite length_take_le; [done|]. rewrite length_drop. lia. }
  split.
  - destruct (take size (drop start values)) as [|v rest] eqn:Hshape; [simpl in Hlength; lia|].
    assert (v = first) as ->.
    { assert (take size (drop start values) !! 0 = Some v) as H0 by by rewrite Hshape.
      rewrite lookup_take_lt, lookup_drop, Nat.add_0_r in H0 by lia. congruence. }
    by apply chunkMin_ascending.
  - destruct (proj1 (last_Some (take size (drop start values)) final)) as [initial Hshape].
    { rewrite last_lookup, Hlength, lookup_take_lt, lookup_drop by lia.
      rewrite <- Hfinal. f_equal. lia. }
    rewrite Hshape in Hchunk |- *. by apply chunkMax_ascending.
Qed.

(** ** What [calculateProject] returns when the strides fit the row *)

Section Aggregates.
Variable deref : ref → IProject.

(** The result of [calculateProject] in terms of the row: the bands
    with their shares, and one bucket per chunk of the sorted row. *)
Lemma calculateProject_aggregates fuel p environment row :
  ready deref environment p →
  index (simulatedValues environment) (startYear (deref p)) = Some row →
  fullBuckets (len row) →
  (len row / ((len row + 5) / 10) <= Z.of_nat fuel)%Z →
  ∃ requiredAmount result,
    let year := startYear (deref p) in
    let sorted := Array_sort Qle_bool row in
    let size := Z.to_nat ((len row + 5) / 10) in
    let bands :=
      createGroups requiredAmount
        (default Undefined (index (noInterestReferenceLine environment) year))
        (env_liquidity environment) in
    calculateRequiredAmount deref p (projectsByStartYear environment) = Ok requiredAmount
    ∧ calculateProject deref fuel p environment
      = Ok (result, withSortedRow environment year sorted)
    ∧ groups result = shareOf bands row <$> List.filter (occupied bands row) bands
    ∧ length (buckets result) * size = length row
    ∧ (∀ k, k * size < length row →
         ∃ bucket,
           buckets result !! k = Some bucket
           ∧ bucket_min bucket = chunkMin (take size (drop (k * size) sorted))
           ∧ bucket_max bucket = chunkMax (take size (drop (k * size) sorted))
           ∧ ∀ band, subBuckets bucket !! band
                     = subBucketOf band
                         (chunkOf bands band (take size (drop (k * size) sorted)))).
Proof.
  intros ([sameYear Hgroup] & _ & Hreference) Hrow [Hfive Hfit] Hfuel.
  unfold calculateProject, calculateRequiredAmount.
  rewrite Hgroup, Hrow. cbn [mbind outcome_mbind outcome_bind].
  set (requiredAmount := sumEarlier deref p sameYear (totalAmount (deref p))).
  set (sorted := Array_sort Qle_bool row).
  set (bands := createGroups requiredAmount _ _).
  assert (length sorted = length row) as Hlength by apply Array_sort_length.
  assert (len sorted = len row) as Hsorted by (unfold len; by rewrite Hlength).
  rewrite bucketSize_spec, Hsorted.
  set (sizeZ := ((len row + 5) / 10)%Z) in *.
  assert (0 < sizeZ)%Z as Hsize by (unfold sizeZ; divlia).
  set (size := Z.to_nat sizeZ).
  set (count := Z.to_nat (len row / sizeZ)).
  assert (len row = Z.of_nat count * Z.of_nat size)%Z as Hexact.
  { unfold count, size. rewrite !Z2Nat.id by (try apply Z.div_pos; lia).
    rewrite Z.mul_comm. apply Z.div_exact; lia. }
  destruct (bucketLoop_strides sorted requiredAmount
              (default Undefined (index (noInterestReferenceLine environment)
                                    (startYear (deref p))))
              (env_liquidity environment) size Hreference ltac:(lia)
              count (fuel - count) 0 [] ∅)
    as (added & valuesByGroup & Hloop & Hadded & Hcount & Hbuckets).
  { unfold len in Hexact. lia. }
  fold bands in Hloop, Hcount, Hbuckets.
  assert (count ≤ fuel) as Henough.
  { unfold count. pose proof (Z.div_pos (len row) sizeZ). lia. }
  replace (count + (fuel - count)) with fuel in Hloop by lia.
  replace (Z.of_nat size) with sizeZ in Hloop by (unfold size; lia).
  change (Z.of_nat 0) with 0%Z in Hloop. rewrite Hloop.
  assert (bucketLoop (fuel - count) sorted bands sizeZ (Z.of_nat (0 + count * size))
            ([] ++ added) valuesByGroup = Ok (added, valuesByGroup)) as ->.
  { destruct (fuel - count); simpl;
      destruct (Z.ltb_spec (Z.of_nat (count * size)) (len sorted)); try done; lia. }
  cbn [mbind outcome_mbind outcome_bind].
  exists requiredAmount. eexists. split; [done|]. split; [reflexivity|].
  cbn [groups buckets].
  assert (∀ band, default 0%Z (valuesByGroup !! band) = tally bands band row) as Htally.
  { intros band. rewrite Hcount, lookup_empty, drop_0. simpl.
    rewrite take_ge by (unfold len in Hexact; lia).
    apply tally_Permutation, Array_sort_Permutation. }
  split; [|split].
  - erewrite List.filter_ext.
    + apply list_fmap_ext. intros _ group _. unfold shareOf.
      by rewrite Htally.
    + intros group. unfold occupied. rewrite <- Htally.
      by destruct (valuesByGroup !! name group).
  - unfold len in Hexact. lia.
  - intros k Hk. apply Hbuckets. unfold len in Hexact. nia.
Qed.
End Aggregates.

(** ** The bands by their thresholds *)

(** X5. The band of a finite value is decided by three thresholds, from
    the top: green when the value reaches [requiredAmount]; else yellow when
    it reaches [requiredAmount - liquidity]; else gray when it reaches the
    reference line and red when it does not.  For a year without a reference
    line (the value [undefined]) the last band is always gray, never red. *)
Theorem groupForValue_by_thresholds (requiredAmount liquidity value : Q) (reference : number) :
  reference ≠ NaN →
  bandOf (createGroups requiredAmount reference liquidity) value
  = Some (if Qle_bool requiredAmount value then "green"
          else if Qle_bool (requiredAmount - liquidity) value then "yellow"
          else match reference with
               | Num line => if Qle_bool line value then "gray" else "red"
               | _ => "gray"
               end).
Proof.
  intros Hreference. unfold bandOf, groupForValue, createGroups, inGroup.
  cbn [List.find from to js_le js_gt name].
  destruct (Qle_bool requiredAmount value); [done|].
  cbn [andb negb].
  destruct (Qle_bool (requiredAmount - liquidity) value); [done|].
  destruct reference as [| |line]; [done|done|].
  cbn [andb negb js_le js_gt]. by destruct (Qle_bool line value).
Qed.

Lemma bandOf_createGroups requiredAmount reference liquidity value :
  reference ≠ NaN →
  bandOf (createGroups requiredAmount reference liquidity) value
  ∈ [Some "green"; Some "yellow"; Some "gray"; Some "red"].
Proof.
  intros Hreference.
  destruct (groupForValue_finds requiredAmount liquidity value reference Hreference)
    as (group & Hfound & Hin & _).
  unfold bandOf. rewrite Hfound. simpl.
  destruct Hin as [<-|[<-|[<-|[<-|[]]]]]; simpl; set_solver.
Qed.

(** Every value is counted in exactly one band. *)
Lemma tally_total requiredAmount reference liquidity (values : list Q) :
  reference ≠ NaN →
  let bands := createGroups requiredAmount reference liquidity in
  (tally bands "green" values + tally bands "yellow" values
   + tally bands "gray" values + tally bands "red" values = len values)%Z.
Proof.
  intros Hreference bands. induction values as [|value values IH]; [done|].
  rewrite !tally_cons. unfold len in *. simpl length.
  pose proof (bandOf_createGroups requiredAmount reference liquidity value Hreference)
    as Hband.
  fold bands in Hband. rewrite !elem_of_cons, elem_of_nil in Hband.
  destruct Hband as [Hband|[Hband|[Hband|[Hband|[]]]]]; rewrite Hband;
    repeat case_decide; try congruence; lia.
Qed.

Lemma sumQ_shares (bands : list IGroup) (values : list Q) (gs : list IGroup) :
  (sumQ (percentage <$> (shareOf bands values <$> List.filter (occupied bands values) gs))
   == sumQ ((λ group, inject_Z (tally bands (name group) values)) <$> gs)
      / inject_Z (len values))%Q.
Proof.
  unfold sumQ. induction gs as [|group gs IH].
  - cbn. unfold Qdiv. ring.
  - cbn [List.filter]. unfold occupied at 1.
    destruct (Z.eqb_spec (tally bands (name group) values) 0) as [Hzero|_];
      cbn [negb]; rewrite !fmap_cons; cbn [foldr]; rewrite ?fmap_cons; cbn [foldr];
      rewrite IH.
    + rewrite Hzero. change (inject_Z 0) with 0%Q. unfold Qdiv. ring.
    + cbn [percentage shareOf]. unfold Qdiv. ring.
Qed.

Lemma sumQ_tallies (bands : list IGroup) requiredAmount reference liquidity (values : list Q) :
  (sumQ ((λ group, inject_Z (tally bands (name group) values))
           <$> createGroups requiredAmount reference liquidity)
   == inject_Z (tally bands "green" values + tally bands "yellow" values
                + tally bands "gray" values + tally bands "red" values))%Q.
Proof.
  unfold createGroups, sumQ. cbn [fmap list_fmap foldr name].
  rewrite !inject_Z_plus. ring.
Qed.

Section AggregateTheorems.
Variable deref : ref → IProject.

(** X6. When the strides fit the row, the groups of the result are the
    bands that hold at least one value of the row, in the order green,
    yellow, gray, red, each with the share of the row's values that fall
    into it as its percentage; the percentages add up to 1. *)
Theorem calculateProject_group_percentages fuel p environment row :
  ready deref environment p →
  index (simulatedValues environment) (startYear (deref p)) = Some row →
  fullBuckets (len row) →
  (len row / ((len row + 5) / 10) <= Z.of_nat fuel)%Z →
  ∃ requiredAmount result environment',
    let bands :=
      createGroups requiredAmount
        (default Undefined
           (index (noInterestReferenceLine environment) (startYear (deref p))))
        (env_liquidity environment) in
    calculateRequiredAmount deref p (projectsByStartYear environment) = Ok requiredAmount
    ∧ calculateProject deref fuel p environment = Ok (result, environment')
    ∧ groups result = shareOf bands row <$> List.filter (occupied bands row) bands
    ∧ (sumQ (percentage <$> groups result) == 1)%Q.
Proof.
  intros Hready Hrow Hfit Hfuel.
  destruct (calculateProject_aggregates deref fuel p environment row Hready Hrow Hfit Hfuel)
    as (requiredAmount & result & Hamount & Hrun & Hgroups & _).
  exists requiredAmount, result. eexists. cbv zeta.
  split; [exact Hamount|]. split; [exact Hrun|]. split; [exact Hgroups|].
  rewrite Hgroups, sumQ_shares, sumQ_tallies.
  destruct Hready as (_ & _ & Hreference).
  rewrite (tally_total requiredAmount _ (env_liquidity environment) row Hreference).
  destruct Hfit as [Hfive _].
  apply Qmult_inv_r. intros Hzero.
  assert (0 < inject_Z (len row))%Q as Hpositive by (rewrite <- (Zlt_Qlt 0); lia).
  lra.
Qed.

(** X14. When the strides fit the row, the result has one bucket per
    stride of [bucketSize = Math.round(length / 10)] values of the sorted
    row.  Bucket [k] has as [min] the smaller of [Number.MAX_VALUE] and the
    first value of its stride, and as [max] the larger of [Number.MIN_VALUE]
    (the smallest positive number) and the last value of its stride: a
    stride of values that are not positive has [max = Number.MIN_VALUE]. *)
Theorem calculateProject_buckets fuel p environment row :
  ready deref environment p →
  index (simulatedValues environment) (startYear (deref p)) = Some row →
  fullBuckets (len row) →
  (len row / ((len row + 5) / 10) <= Z.of_nat fuel)%Z →
  ∃ result environment',
    let sorted := Array_sort Qle_bool row in
    let size := Z.to_nat ((len row + 5) / 10) in
    calculateProject deref fuel p environment = Ok (result, environment')
    ∧ length (buckets result) * size = length row
    ∧ ∀ k, k < length (buckets result) →
        ∃ bucket,
          buckets result !! k = Some bucket
          ∧ bucket_min bucket = Math_min (Num MAX_VALUE) (at_ sorted (Z.of_nat (k * size)))
          ∧ bucket_max bucket
            = Math_max (Num MIN_VALUE) (at_ sorted (Z.of_nat (k * size + size - 1))).
Proof.
  intros Hready Hrow Hfit Hfuel.
  destruct (calculateProject_aggregates deref fuel p environment row Hready Hrow Hfit Hfuel)
    as (requiredAmount & result & _ & Hrun & _ & Hcount & Hbuckets).
  exists result. eexists. cbv zeta in *. split; [exact Hrun|]. split; [exact Hcount|].
  intros k Hk.
  assert (0 < Z.to_nat ((len row + 5) / 10)) as Hsize.
  { destruct Hfit as [Hfive _]. apply Z2Nat.inj_lt with (n := 0%Z); [lia| |]; divlia. }
  destruct (Hbuckets k) as (bucket & Hbucket & Hmin & Hmax & _); [nia|].
  exists bucket. split; [exact Hbucket|].
  destruct (chunk_min_max (Array_sort Qle_bool row) (k * Z.to_nat ((len row + 5) / 10))
              (Z.to_nat ((len row + 5) / 10))) as [Hfirst Hfinal].
  - apply Array_sort_ascending.
  - exact Hsize.
  - rewrite Array_sort_length. nia.
  - by rewrite Hmin, Hmax, Hfirst, Hfinal.
Qed.

(** X15. When the strides fit the row, the sub-buckets of bucket [k] are
    keyed by the bands that occur in stride [k] of the sorted row: a band
    without a value in the stride has no sub-bucket, and the sub-bucket of
    any other band carries the band's name and the minimum and maximum,
    computed like those of the bucket, of the stride's values of that
    band. *)
Theorem calculateProject_subBuckets fuel p environment row :
  ready deref environment p →
  index (simulatedValues environment) (startYear (deref p)) = Some row →
  fullBuckets (len row) →
  (len row / ((len row + 5) / 10) <= Z.of_nat fuel)%Z →
  ∃ requiredAmount result environment',
    let bands :=
      createGroups requiredAmount
        (default Undefined
           (index (noInterestReferenceLine environment) (startYear (deref p))))
        (env_liquidity environment) in
    let sorted := Array_sort Qle_bool row in
    let size := Z.to_nat ((len row + 5) / 10) in
    calculateRequiredAmount deref p (projectsByStartYear environment) = Ok requiredAmount
    ∧ calculateProject deref fuel p environment = Ok (result, environment')
    ∧ ∀ k bucket,
        buckets result !! k = Some bucket →
        ∀ band, subBuckets bucket !! band
                = subBucketOf band (chunkOf bands band (take size (drop (k * size) sorted))).
Proof.
  intros Hready Hrow Hfit Hfuel.
  destruct (calculateProject_aggregates deref fuel p environment row Hready Hrow Hfit Hfuel)
    as (requiredAmount & result & Hamount & Hrun & _ & Hcount & Hbuckets).
  exists requiredAmount, result. eexists. cbv zeta in *.
  split; [exact Hamount|]. split; [exact Hrun|].
  intros k bucket Hbucket.
  pose proof (lookup_lt_Some _ _ _ Hbucket) as Hk.
  assert (0 < Z.to_nat ((len row + 5) / 10)) as Hsize.
  { destruct Hfit as [Hfive _]. apply Z2Nat.inj_lt with (n := 0%Z); [lia| |]; divlia. }
  destruct (Hbuckets k) as (bucket' & Hbucket' & _ & _ & Hsub); [nia|].
  rewrite Hbucket in Hbucket'. by injection Hbucket' as <-.
Qed.

(** X16. Whenever [calculateProject] returns for a year with at least one
    simulated value, [min] and [max] of the result are values of the row,
    and every value of the row lies between them. *)
Theorem calculateProject_extremes fuel p environment result environment' row :
  calculateProject deref fuel p environment = Ok (result, environment') →
  index (simulatedValues environment) (startYear (deref p)) = Some row →
  row ≠ [] →
  ∃ lowest highest,
    res_min result = Num lowest ∧ res_max result = Num highest
    ∧ lowest ∈ row ∧ highest ∈ row
    ∧ ∀ value, value ∈ row → (lowest <= value <= highest)%Q.
Proof.
  intros Hrun Hrow Hvalues.
  destruct (calculateProject_Ok deref _ _ _ _ _ Hrun)
    as (? & row' & ? & ? & _ & Hrow' & _ & _ & _ & _ & Hmin & _ & _ & _ & Hmax).
  cbv zeta in *. rewrite Hrow in Hrow'. injection Hrow' as <-.
  set (sorted := Array_sort Qle_bool row) in *.
  assert (ascending sorted) as Hsorted by apply Array_sort_ascending.
  assert (sorted ≡ₚ row) as Hperm by apply Array_sort_Permutation.
  assert (0 < len sorted)%Z as Hlen.
  { unfold len, sorted. rewrite Array_sort_length. destruct row; [done|simpl; lia]. }
  destruct (at_in_range sorted 0) as (lowest & Hlowest & Hfirst); [lia|].
  destruct (at_in_range sorted (len sorted - 1)) as (highest & Hhighest & Hlast); [lia|].
  exists lowest, highest. rewrite Hmin, Hmax. split; [done|]. split; [done|].
  split; [|split].
  - rewrite <- Hperm. by eapply list_elem_of_lookup_2.
  - rewrite <- Hperm. by eapply list_elem_of_lookup_2.
  - intros value Hvalue. rewrite <- Hperm in Hvalue.
    apply list_elem_of_lookup in Hvalue as [i Hi].
    pose proof (lookup_lt_Some _ _ _ Hi) as Hbound.
    split.
    + apply (ascending_lookup sorted (Z.to_nat 0) i); try done. simpl. lia.
    + apply (ascending_lookup sorted i (Z.to_nat (len sorted - 1))); try done.
      unfold len. lia.
Qed.
End AggregateTheorems.

(** * Independence of the calls of [calculateProject] *)

Section Frame.
Variable deref : ref → IProject.
Variable random : nat → Q → Q → Q.

Lemma Array_sort_twice (row : list Q) :
  Array_sort Qle_bool (Array_sort Qle_bool row) = Array_sort Qle_bool row.
Proof. apply Array_sort_sorted_id, Array_sort_ascending. Qed.

Lemma sameStatistics_refl e : sameStatistics e e.
Proof. by repeat split. Qed.

Lemma sameStatistics_withSortedRow e (year : Z) row :
  index (simulatedValues e) year = Some row →
  sameStatistics (withSortedRow e year (Array_sort Qle_bool row)) e.
Proof.
  intros Hrow. apply index_Some in Hrow as [_ Hrow].
  repeat split; try done. simpl.
  rewrite list_fmap_insert, Array_sort_twice.
  apply list_insert_id. by rewrite list_lookup_fmap, Hrow.
Qed.

Lemma sameStatistics_trans e1 e2 e3 :
  sameStatistics e1 e2 → sameStatistics e2 e3 → sameStatistics e1 e3.
Proof.
  intros (?&?&?&?&?&?&?) (?&?&?&?&?&?&?). repeat split; congruence.
Qed.

Lemma sameStatistics_row e1 e2 (year : Z) :
  sameStatistics e1 e2 →
  Array_sort Qle_bool <$> index (simulatedValues e1) year
  = Array_sort Qle_bool <$> index (simulatedValues e2) year.
Proof.
  intros (_&_&_&_&_&_&Hrows). unfold index. destruct (year <? 0)%Z; [done|].
  by rewrite <- !list_lookup_fmap, Hrows.
Qed.

(** [calculateProject] reads a row only after sorting it: the result
    does not depend on the order of the values in the rows. *)
Lemma calculateProject_sameStatistics fuel p e1 e2 :
  sameStatistics e1 e2 →
  onlyResult (calculateProject deref fuel p e1) = onlyResult (calculateProject deref fuel p e2).
Proof.
  intros Hsame. pose proof (sameStatistics_row e1 e2 (startYear (deref p)) Hsame) as Hrow.
  destruct Hsame as (_ & Hliquidity & Hline & _ & _ & Hgroups & _).
  unfold calculateProject. rewrite Hgroups, Hline, Hliquidity.
  destruct (calculateRequiredAmount _ _ _) as [requiredAmount| |];
    cbn [mbind outcome_mbind outcome_bind]; try done.
  destruct (index (simulatedValues e1) _) as [row1|],
           (index (simulatedValues e2) _) as [row2|]; try done.
  injection Hrow as Hrow. rewrite Hrow.
  destruct (bucketLoop _ _ _ _ _ _ _) as [[bucketList valuesByGroup]| |];
    cbn [mbind outcome_mbind outcome_bind]; done.
Qed.

(** X7. The write of [calculateProject] to the environment does not
    show in any later call.  After a call for [p] has returned, a call for
    any project [q] on the environment that it left gives what the call
    would have given on the environment before (the same result, the same
    error, or no return); and a second call for [p] returns the same result
    and leaves the environment as it finds it. *)
Theorem calculateProject_frame fuel p q environment result environment' :
  calculateProject deref fuel p environment = Ok (result, environment') →
  onlyResult (calculateProject deref fuel q environment')
  = onlyResult (calculateProject deref fuel q environment)
  ∧ calculateProject deref fuel p environment' = Ok (result, environment').
Proof.
  intros Hrun.
  destruct (calculateProject_Ok _ _ _ _ _ _ Hrun)
    as (requiredAmount & row & bucketList & valuesByGroup & _ & Hrow & _ & Henv & _).
  assert (sameStatistics environment' environment) as Hsame.
  { rewrite Henv. by apply sameStatistics_withSortedRow. }
  split; [by apply calculateProject_sameStatistics|].
  pose proof (calculateProject_sameStatistics fuel p _ _ Hsame) as Hagain.
  rewrite Hrun in Hagain. simpl in Hagain.
  destruct (calculateProject deref fuel p environment') as [[result' environment'']| |] eqn:Hrun';
    simpl in Hagain; try done.
  injection Hagain as ->.
  destruct (calculateProject_Ok _ _ _ _ _ _ Hrun')
    as (? & row' & ? & ? & _ & Hrow' & _ & Henv' & _).
  apply index_Some in Hrow as [Hyear Hrow]. apply index_Some in Hrow' as [_ Hrow'].
  assert (row' = Array_sort Qle_bool row) as ->.
  { rewrite Henv in Hrow'. simpl in Hrow'.
    rewrite list_lookup_insert_eq in Hrow' by (by eapply lookup_lt_Some). congruence. }
  rewrite Henv'. f_equal. f_equal. unfold withSortedRow.
  rewrite Array_sort_twice, (list_insert_id _ _ _ Hrow'). by destruct environment'.
Qed.

(** The loop of the driver gives, for each project, the result of a
    call on the environment as it was built. *)
Lemma calculateProjects_on_built fuel l :
  ∀ environment current done results environment',
    sameStatistics current environment →
    calculateProjects deref fuel l current done = Ok (results, environment') →
    ∃ computed,
      results = done ++ computed
      ∧ Forall2 (λ q r, onlyResult (calculateProject deref fuel q environment) = Ok r)
          l computed
      ∧ sameStatistics environment' environment.
Proof.
  induction l as [|q l IH]; intros environment current done results environment' Hsame Hrun;
    simpl in Hrun.
  - injection Hrun as <- <-. exists []. by rewrite app_nil_r.
  - destruct (calculateProject deref fuel q current) as [[r next]| |] eqn:Hq;
      cbn [mbind outcome_mbind outcome_bind] in Hrun; try done.
    pose proof (calculateProject_sameStatistics fuel q _ _ Hsame) as Hsameq.
    rewrite Hq in Hsameq. simpl in Hsameq.
    destruct (calculateProject_Ok _ _ _ _ _ _ Hq)
      as (? & row & ? & ? & _ & Hrow & _ & Hnext & _).
    destruct (IH environment next (done ++ [r]) results environment') as
      (computed & -> & Hall & Hend); [|done|].
    { eapply sameStatistics_trans; [|exact Hsame].
      rewrite Hnext. by apply sameStatistics_withSortedRow. }
    exists (r :: computed). split; [by rewrite <- app_assoc|]. split; [|done].
    by constructor.
Qed.

(** X8. Every result that [syncMonteCarlo] returns is the result that
    [calculateProject] gives for its project on the environment as
    [createMonteCarloEnvironment] built it: the results do not depend on the
    order in which the projects are visited, although every visit sorts a
    row of the shared environment in place. *)
Theorem syncMonteCarlo_each_result fuel options σ l results σ' :
  opt_projects options = Some l →
  syncMonteCarlo deref random fuel (Some options) σ = Ok (results, σ') →
  ∃ environment,
    createMonteCarloEnvironment deref random
      (initializeOptions (Some options) σ).1 (initializeOptions (Some options) σ).2
    = Ok (environment, σ')
    ∧ Forall2 (λ q result, onlyResult (calculateProject deref fuel q environment) = Ok result)
        (Array_sort (byStartYear deref) (read σ l)) results.
Proof.
  intros Hl Hrun.
  destruct (syncMonteCarlo_Ok deref random _ _ _ _ _ _ Hl Hrun)
    as (environment & final & Henv & _ & Hloop).
  exists environment. split; [exact Henv|].
  destruct (calculateProjects_on_built fuel _ environment environment [] results final
              (sameStatistics_refl _) Hloop) as (computed & -> & Hall & _).
  exact Hall.
Qed.
End Frame.

(** * Errors *)





Section Errors.
Variable deref : ref → IProject.
Variable random : nat → Q → Q → Q.


(** X13. [calculateRequiredAmount] raises a TypeError exactly when no
    project of the grouped list starts in the year of the project: the
    lookup gives [undefined], which the loop cannot iterate. *)
Theorem calculateRequiredAmount_TypeError (input : list ref) (p : ref) :
  calculateRequiredAmount deref p (groupBy deref input) = Throw TypeError
  ↔ ∀ q, q ∈ input → startYear (deref q) ≠ startYear (deref p).
Proof.
  unfold calculateRequiredAmount. rewrite groupBy_lookup.
  destruct (startingIn deref (startYear (deref p)) input) as [|q rest] eqn:Hgroup.
  - split; [|done]. intros _ q Hq Hyear.
    assert (q ∈ startingIn deref (startYear (deref p)) input) as Hin.
    { unfold startingIn. by apply list_elem_of_filter. }
    rewrite Hgroup in Hin. by apply not_elem_of_nil in Hin.
  - split; [done|]. intros Hnone.
    assert (q ∈ startingIn deref (startYear (deref p)) input) as Hin.
    { rewrite Hgroup. by left. }
    unfold startingIn in Hin. apply list_elem_of_filter in Hin as [Hyear Hq].
    by destruct (Hnone q Hq).
Qed.


End Errors.

(** * The simulated values *)

Lemma Math_round_comp (x y : Q) : (x == y)%Q → Math_round x = Math_round y.
Proof. intros H. unfold Math_round. by rewrite H. Qed.

Lemma Array_slice_nil {A : Type} (start end_ : Z) : Array_slice (@nil A) start end_ = [].
Proof. unfold Array_slice. by rewrite drop_nil, take_nil. Qed.

(** The slice is a new array: the array of the options reads as
    before. *)
Lemma read_slice (σ : Store) (l : loc) (start end_ : Z) :
  read (<[fresh (dom σ) := Array_slice (read σ l) start end_]> σ) l = read σ l.
Proof.
  unfold read. destruct (decide (fresh (dom σ) = l)) as [<-|Hne].
  - rewrite lookup_insert_eq, (proj1 (not_elem_of_dom σ _) (is_fresh _)). simpl.
    apply Array_slice_nil.
  - by rewrite lookup_insert_ne.
Qed.

Lemma read_insert_eq (σ : Store) (l : loc) (contents : list ref) :
  read (<[l := contents]> σ) l = contents.
Proof. unfold read. by rewrite lookup_insert_eq. Qed.

Lemma ascending_replicate (n : nat) (a : Q) : ascending (replicate n a).
Proof.
  induction n as [|n IH]; simpl; constructor; [done|].
  apply Forall_replicate, Qle_bool_iff, Qle_refl.
Qed.

Lemma at_replicate (n : nat) (a : Q) (i : Z) :
  (0 <= i < Z.of_nat n)%Z → at_ (replicate n a) i = Num a.
Proof.
  intros Hi. unfold at_, index. destruct (Z.ltb_spec i 0); [lia|].
  rewrite lookup_replicate_2 by lia. done.
Qed.

Lemma median_replicate (n : nat) (a : Q) :
  0 < n → ∃ m, median (replicate n a) = Num m ∧ (m == a)%Q.
Proof.
  intros Hn. unfold median, len. rewrite length_replicate.
  destruct (Z.eqb_spec (Z.of_nat n mod 2) 0) as [Heven|Hodd]; cbn [negb].
  - rewrite !at_replicate by divlia. eexists. split; [reflexivity|]. field.
  - rewrite at_replicate by divlia. by exists a.
Qed.

Section Simulation.
Variable deref : ref → IProject.
Variable random : nat → Q → Q → Q.

(** What [createMonteCarloEnvironment] returns, with or without a
    partition. *)
Lemma createMonteCarloEnvironment_parts options σ environment σ' :
  createMonteCarloEnvironment deref random options σ = Ok (environment, σ') →
  let sorted := Array_sort (byStartYear deref) (read σ (projects options)) in
  let cashFlows := projectsToCashFlows deref (groupBy deref sorted) (numYears options) in
  read σ' (projects options) = sorted
  ∧ projectsByStartYear environment = groupBy deref sorted
  ∧ noInterestReferenceLine environment
    = calculateNoInterestReferenceLine cashFlows (investmentAmount options) (numYears options)
  ∧ simulateOutcomes random cashFlows (investmentAmount options) options
    = Ok (simulatedValues environment)
  ∧ env_numRuns environment = numRuns options
  ∧ env_liquidity environment = liquidity options
  ∧ env_investmentAmount environment = investmentAmount options.
Proof.
  unfold createMonteCarloEnvironment. intros H.
  destruct (truthy (taskIndex options) && truthy (valuesPerWorker options));
    rewrite ?read_slice, !read_insert_eq in H;
    destruct (simulateOutcomes _ _ _ _) as [rows| |] eqn:Hrows;
    cbn [mbind outcome_mbind outcome_bind] in H; try done;
    injection H as <- <-; cbv zeta; rewrite read_insert_eq; by repeat split.
Qed.

(** X12. A partition ([taskIndex] and [valuesPerWorker]) changes
    nothing in the environment but its [numYears] field: the grouping, the
    reference line and the simulated values are those of the environment
    built without a partition, and the array of the options is left in the
    same sorted order. *)
Theorem createMonteCarloEnvironment_partition options σ environment σ' :
  createMonteCarloEnvironment deref random options σ = Ok (environment, σ') →
  ∃ whole σ'',
    createMonteCarloEnvironment deref random (withoutPartition options) σ = Ok (whole, σ'')
    ∧ projectsByStartYear environment = projectsByStartYear whole
    ∧ noInterestReferenceLine environment = noInterestReferenceLine whole
    ∧ simulatedValues environment = simulatedValues whole
    ∧ env_numRuns environment = env_numRuns whole
    ∧ env_liquidity environment = env_liquidity whole
    ∧ env_investmentAmount environment = env_investmentAmount whole
    ∧ read σ' (projects options) = read σ'' (projects options).
Proof.
  intros Henv.
  destruct (createMonteCarloEnvironment_parts _ _ _ _ Henv)
    as (Hread & Hgroups & Hline & Hrows & Hruns & Hliquidity & Hamount).
  destruct (createMonteCarloEnvironment deref random (withoutPartition options) σ)
    as [[whole σ'']| |] eqn:Hwhole.
  - destruct (createMonteCarloEnvironment_parts _ _ _ _ Hwhole)
      as (Hread' & Hgroups' & Hline' & Hrows' & Hruns' & Hliquidity' & Hamount').
    cbn [withoutPartition projects numYears numRuns investmentAmount liquidity] in *.
    exists whole, σ''. split; [done|].
    assert (simulatedValues environment = simulatedValues whole) as Hsame.
    { unfold simulateOutcomes in Hrows, Hrows'.
      cbn [withoutPartition numYears numRuns performance volatility] in Hrows'.
      rewrite Hrows in Hrows'. by injection Hrows'. }
    repeat split; congruence.
  - exfalso. unfold createMonteCarloEnvironment in Hwhole.
    cbn [withoutPartition taskIndex valuesPerWorker truthy andb projects numYears
         investmentAmount] in Hwhole.
    rewrite !read_insert_eq in Hwhole.
    unfold simulateOutcomes in Hrows, Hwhole.
    cbn [withoutPartition numYears numRuns performance volatility] in Hwhole.
    destruct (new_Array (numYears options)); [|done..].
    destruct (new_Array (numRuns options)); done.
  - exfalso. unfold createMonteCarloEnvironment in Hwhole.
    cbn [withoutPartition taskIndex valuesPerWorker truthy andb projects numYears
         investmentAmount] in Hwhole.
    rewrite !read_insert_eq in Hwhole.
    unfold simulateOutcomes in Hrows, Hwhole.
    cbn [withoutPartition numYears numRuns performance volatility] in Hwhole.
    destruct (new_Array (numYears options)); [|done..].
    destruct (new_Array (numRuns options)); done.
Qed.

(** Row [year] of the matrix holds entry [year] of the path of every
    run. *)
Lemma simulateOutcomes_rows cashFlows investmentAmount options rows :
  simulateOutcomes random cashFlows investmentAmount options = Ok rows →
  let years := Z.to_nat (numYears options) in
  let runs := Z.to_nat (numRuns options) in
  (0 <= numYears options)%Z ∧ (0 <= numRuns options)%Z
  ∧ ∀ year, year ≤ years →
      rows !! year
      = Some (omap (λ indices : list Q, indices !! year)
                (simulateRuns random cashFlows investmentAmount (performance options)
                   (volatility options) years runs 0)).
Proof.
  intros Heq.
  destruct (simulateOutcomes_arrayLength random _ _ _ _ Heq) as [Hyears Hruns].
  unfold simulateOutcomes in Heq.
  rewrite (new_Array_arrayLength _ Hyears), (new_Array_arrayLength _ Hruns) in Heq.
  cbn [mbind outcome_mbind outcome_bind] in Heq.
  match type of Heq with Ok ?r = _ => assert (rows = r) as -> by congruence end. cbv zeta.
  unfold arrayLength in Hyears, Hruns.
  split; [lia|]. split; [lia|]. intros year Hyear.
  rewrite list_lookup_fmap, lookup_seq_lt by lia. done.
Qed.

(** In year 0 the index is 100 over 100 and no cash flow is applied. *)
Lemma simulateRuns_year_0 cashFlows investmentAmount performance volatility years runs calls :
  omap (λ indices : list Q, indices !! 0)
    (simulateRuns random cashFlows investmentAmount performance volatility years runs calls)
  = replicate runs (inject_Z (Math_round investmentAmount)).
Proof.
  revert calls. induction runs as [|runs IH]; intros calls; [done|].
  cbn [simulateRuns omap list_omap replicate]. unfold toAbsoluteIndices at 1.
  cbn [toAbsoluteLoop lookup list_lookup]. rewrite IH. do 2 f_equal.
  apply Math_round_comp. assert (100 / 100 == 1)%Q as -> by reflexivity. ring.
Qed.

Lemma simulatedValues_year_0 options σ environment σ' :
  createMonteCarloEnvironment deref random options σ = Ok (environment, σ') →
  index (simulatedValues environment) 0
  = Some (replicate (Z.to_nat (numRuns options))
            (inject_Z (Math_round (investmentAmount options)))).
Proof.
  intros Henv.
  destruct (createMonteCarloEnvironment_parts _ _ _ _ Henv) as (_ & _ & _ & Hrows & _).
  destruct (simulateOutcomes_rows _ _ _ _ Hrows) as (_ & _ & Hlookup).
  unfold index. simpl. rewrite Hlookup by lia. by rewrite simulateRuns_year_0.
Qed.

(** X9. The row of year 0 of every environment holds the rounded
    [investmentAmount] in every run, whatever the projects, the draws, the
    performance and the volatility. *)
Theorem createMonteCarloEnvironment_year_0 options σ environment σ' :
  createMonteCarloEnvironment deref random options σ = Ok (environment, σ') →
  index (simulatedValues environment) 0
  = Some (replicate (Z.to_nat (numRuns options))
            (inject_Z (Math_round (investmentAmount options))))
  ∧ len (replicate (Z.to_nat (numRuns options))
           (inject_Z (Math_round (investmentAmount options)))) = numRuns options.
Proof.
  intros Henv. split; [by eapply simulatedValues_year_0|].
  destruct (createMonteCarloEnvironment_parts _ _ _ _ Henv) as (_ & _ & _ & Hrows & _).
  destruct (simulateOutcomes_rows _ _ _ _ Hrows) as (_ & Hruns & _).
  unfold len. rewrite length_replicate. lia.
Qed.

Lemma addable_Math_round (x : Q) : addable x → addable (inject_Z (Math_round x)).
Proof.
  unfold addable, Math_round. intros [Hlow Hhigh].
  assert (MAX_VALUE / 2 == inject_Z ((2 ^ 53 - 1) * 2 ^ 970))%Q as Hbound.
  { vm_compute. reflexivity. }
  rewrite Hbound in Hlow, Hhigh |- *.
  split.
  - rewrite <- inject_Z_opp, <- Zle_Qle.
    apply Z.le_trans with (Qfloor (inject_Z (- ((2 ^ 53 - 1) * 2 ^ 970)) + (1 # 2))).
    + vm_compute. discriminate.
    + apply Qfloor_resp_le. rewrite inject_Z_opp. lra.
  - rewrite <- Zle_Qle.
    apply Z.le_trans with (Qfloor (inject_Z ((2 ^ 53 - 1) * 2 ^ 970) + (1 # 2))).
    + apply Qfloor_resp_le. lra.
    + vm_compute. discriminate.
Qed.

(** X17. For a project that starts in year 0, every result that
    [calculateProject] returns on a freshly built environment with at least
    one run is degenerate: [min] and [max] are the rounded
    [investmentAmount], and so is, as a number, the median.  (The
    investment lies between [-Number.MAX_VALUE / 2] and [Number.MAX_VALUE /
    2], and so does its rounded value, so that the sum of two values of the
    row is in the range of the doubles.) *)
Theorem calculateProject_year_0 options σ environment σ' fuel p result environment' :
  createMonteCarloEnvironment deref random options σ = Ok (environment, σ') →
  startYear (deref p) = 0%Z → (0 < numRuns options)%Z →
  addable (investmentAmount options) →
  calculateProject deref fuel p environment = Ok (result, environment') →
  let start := inject_Z (Math_round (investmentAmount options)) in
  addable start
  ∧ res_min result = Num start ∧ res_max result = Num start
  ∧ ∃ m, res_median result = Num m ∧ (m == start)%Q.
Proof.
  intros Henv Hyear Hruns Hrange Hrun start.
  split; [by apply addable_Math_round|].
  pose proof (simulatedValues_year_0 _ _ _ _ Henv) as Hrow.
  destruct (calculateProject_Ok deref _ _ _ _ _ Hrun)
    as (? & row & ? & ? & _ & Hrow' & _ & _ & _ & _ & Hmin & _ & Hmedian & _ & Hmax).
  cbv zeta in *. rewrite Hyear, Hrow in Hrow'. injection Hrow' as <-.
  fold start in Hmin, Hmedian, Hmax.
  rewrite (Array_sort_sorted_id _ _ (ascending_replicate _ _)) in Hmin, Hmedian, Hmax.
  unfold len in Hmax. rewrite length_replicate in Hmax.
  rewrite at_replicate in Hmin, Hmax by lia.
  split; [done|]. split; [done|]. rewrite Hmedian. apply median_replicate. lia.
Qed.

(** With draws that are all 0, every index stays at 100. *)
Lemma relativeIndices_steady performance volatility calls years previous :
  (∀ call, random call performance volatility == 0)%Q →
  (previous == 100)%Q →
  Forall (λ index, index == 100)%Q
    (relativeIndices random performance volatility calls years previous).
Proof.
  intros Hdraw. revert calls previous.
  induction years as [|years IH]; intros calls previous Hprevious; simpl; constructor.
  - rewrite Hdraw, Hprevious. ring.
  - apply IH. rewrite Hdraw, Hprevious. ring.
Qed.

(** With indices that stay at 100, the portfolio value of a year is the
    investment plus the cash flows of the years before. *)
Lemma toAbsoluteLoop_steady cashFlows investmentAmount indices :
  ∀ relativeYear current previous,
    Forall (λ index, index == 100)%Q indices → (previous == 100)%Q →
    (current + match relativeYear with
               | O => 0
               | S previousYear => default 0 (cashFlows !! previousYear)
               end
     == investmentAmount + sumQ (take relativeYear cashFlows))%Q →
    relativeYear + length indices ≤ S (length cashFlows) →
    ∀ k, k < length indices →
      toAbsoluteLoop cashFlows relativeYear indices current previous !! k
      = Some (inject_Z (Math_round
                (investmentAmount + sumQ (take (relativeYear + k) cashFlows)))).
Proof.
  induction indices as [|index indices IH];
    intros relativeYear current previous Hsteady Hprevious Hcurrent Hyears k Hk;
    [simpl in Hk; lia|].
  apply Forall_cons in Hsteady as [Hindex Hsteady]. cbn [toAbsoluteLoop].
  assert (index / previous == 1)%Q as Hperformance.
  { rewrite Hindex, Hprevious. reflexivity. }
  destruct k as [|k]; cbn [lookup list_lookup].
  - rewrite Nat.add_0_r. do 2 f_equal. apply Math_round_comp.
    rewrite Hperformance, Hcurrent. ring.
  - simpl in Hk, Hyears.
    destruct (lookup_lt_is_Some_2 cashFlows relativeYear) as [cashFlow HcashFlow]; [lia|].
    rewrite (IH (S relativeYear)); [|done|done| |lia|lia].
    + by replace (S relativeYear + k) with (relativeYear + S k) by lia.
    + rewrite Hperformance, Hcurrent, HcashFlow, (take_S_r _ _ _ HcashFlow), sumQ_app.
      simpl. ring.
Qed.

Lemma simulateRuns_steady cashFlows investmentAmount performance volatility years runs year :
  (∀ call, random call performance volatility == 0)%Q →
  years ≤ length cashFlows → year ≤ years →
  ∀ calls,
    omap (λ indices : list Q, indices !! year)
      (simulateRuns random cashFlows investmentAmount performance volatility years runs calls)
    = replicate runs
        (inject_Z (Math_round (investmentAmount + sumQ (take year cashFlows)))).
Proof.
  intros Hdraw Hyears Hyear.
  induction runs as [|runs IH]; intros calls; [done|].
  cbn [simulateRuns omap list_omap replicate]. unfold toAbsoluteIndices at 1.
  rewrite (toAbsoluteLoop_steady cashFlows investmentAmount _ 0 investmentAmount 100 ).
  - simpl. by rewrite IH.
  - constructor; [reflexivity|]. by apply relativeIndices_steady.
  - reflexivity.
  - simpl. reflexivity.
  - simpl. rewrite relativeIndices_length. lia.
  - simpl. rewrite relativeIndices_length. lia.
Qed.

(** X11. Without shocks, that is when every draw of the generator is 0,
    the simulation follows the reference line with a delay of one year:
    for every year below [numYears], every run has in the following year
    the rounded value of the reference line of the year. *)
Theorem createMonteCarloEnvironment_without_shocks options σ environment σ' (year : nat) :
  (∀ call, random call (performance options) (volatility options) == 0)%Q →
  createMonteCarloEnvironment deref random options σ = Ok (environment, σ') →
  (Z.of_nat year < numYears options)%Z →
  ∃ balance,
    noInterestReferenceLine environment !! year = Some (Num balance)
    ∧ simulatedValues environment !! S year
      = Some (replicate (Z.to_nat (numRuns options)) (inject_Z (Math_round balance))).
Proof.
  intros Hdraw Henv Hyear.
  destruct (createMonteCarloEnvironment_parts _ _ _ _ Henv) as (_ & _ & Hline & Hrows & _).
  destruct (simulateOutcomes_rows _ _ _ _ Hrows) as (_ & _ & Hlookup).
  cbv zeta in *.
  set (cashFlows := projectsToCashFlows deref _ _) in *.
  assert (length cashFlows = Z.to_nat (numYears options)) as Hlength.
  { apply projectsToCashFlows_length. }
  destruct (noInterestLoop_lookup cashFlows (Z.to_nat (numYears options)) 0
              (investmentAmount options) year) as (balance & Hbalance & Hsum); [lia..|].
  exists balance. rewrite Hline. split; [exact Hbalance|].
  rewrite Hlookup by lia. f_equal.
  rewrite (simulateRuns_steady cashFlows) by (done || lia).
  do 2 f_equal. apply Math_round_comp. by rewrite Hsum, drop_0.
Qed.
End Simulation.

(** * The further properties, run *)

(** Ten runs fit ten buckets of one value: the driver returns one
    result for the project of scenario A. *)
Lemma syncMonteCarlo_returns_ten_runs :
  ∃ results σ',
    syncMonteCarlo scenarioA cyclicRandom 10 (Some (optionsWith 0 1 10)) oneProject
    = Ok (results, σ')
    ∧ length results = length (read oneProject 0).
Proof.
  apply (syncMonteCarlo_returns scenarioA cyclicRandom 10 (optionsWith 0 1 10) oneProject 0).
  - reflexivity.
  - vm_compute. split; discriminate.
  - vm_compute. split; discriminate.
  - by vm_compute.
  - vm_compute. discriminate.
  - intros p _. simpl. lia.
  - intros call. unfold cyclicRandom.
    assert (Z.of_nat call mod 3 = 0 ∨ Z.of_nat call mod 3 = 1 ∨ Z.of_nat call mod 3 = 2)%Z
      as [->|[->| ->]] by (pose proof (Z.mod_pos_bound (Z.of_nat call) 3); lia);
      vm_compute; split; discriminate.
  - intros p _. vm_compute. discriminate.
  - intros year. destruct year as [|year]; vm_compute; discriminate.
Defined.




(** With the numbers of scenario A and a reference line of 900000, the
    value 95000 is yellow. *)
Lemma groupForValue_yellow :
  Num 900000 ≠ NaN
  ∧ bandOf (createGroups 100000 (Num 900000) 10000) 95000 = Some "yellow".
Proof.
  assert (Num 900000 ≠ NaN) as Hreference by discriminate.
  split; [exact Hreference|].
  exact (groupForValue_by_thresholds 100000 10000 95000 (Num 900000) Hreference).
Defined.

(** The environment of five runs over two years for the two projects of
    [lateFirst], and what it holds for the project of year 1. *)
Lemma lateFirst_environment :
  ∃ environment row,
    builtFor lateFirst (optionsWith 0 2 5) twoProjects = Some environment
    ∧ ready lateFirst environment 0
    ∧ index (simulatedValues environment) (startYear (lateFirst 0)) = Some row
    ∧ row = [980100; 999900; 990000; 980100; 999900]%Q
    ∧ fullBuckets (len row)
    ∧ (len row / ((len row + 5) / 10) <= Z.of_nat 5)%Z.
Proof.
  eexists _, _. split; [vm_compute; reflexivity|].
  split; [|split; [vm_compute; reflexivity|split; [reflexivity|]]].
  - vm_compute. split; [eexists; reflexivity|].
    split; [split; [discriminate|reflexivity]|discriminate].
  - vm_compute. split; [split; [discriminate|reflexivity]|discriminate].
Qed.

(** All five values of year 1 reach the required amount of 20000: the
    only group of the result is green, with percentage 1. *)
Lemma calculateProject_group_percentages_run :
  ∃ environment row result environment',
    builtFor lateFirst (optionsWith 0 2 5) twoProjects = Some environment
    ∧ ready lateFirst environment 0
    ∧ index (simulatedValues environment) (startYear (lateFirst 0)) = Some row
    ∧ fullBuckets (len row)
    ∧ calculateProject lateFirst 5 0 environment = Ok (result, environment')
    ∧ (sumQ (percentage <$> groups result) == 1)%Q.
Proof.
  destruct lateFirst_environment as (environment & row & Henv & Hready & Hrow & _ & Hfit & Hfuel).
  destruct (calculateProject_group_percentages lateFirst 5 0 environment row
              Hready Hrow Hfit Hfuel)
    as (requiredAmount & result & environment' & _ & Hrun & _ & Hsum).
  exists environment, row, result, environment'.
  split; [exact Henv|]. split; [exact Hready|]. split; [exact Hrow|]. split; [exact Hfit|].
  split; [exact Hrun|exact Hsum].
Defined.

(** The call for the project of year 1 does not change what the call
    for the project of year 0 returns, nor what a second call returns. *)
Lemma calculateProject_frame_run :
  ∃ environment result environment',
    builtFor lateFirst (optionsWith 0 2 5) twoProjects = Some environment
    ∧ calculateProject lateFirst 5 0 environment = Ok (result, environment')
    ∧ onlyResult (calculateProject lateFirst 5 1 environment')
      = onlyResult (calculateProject lateFirst 5 1 environment)
    ∧ calculateProject lateFirst 5 0 environment' = Ok (result, environment').
Proof.
  destruct lateFirst_environment as (environment & row & Henv & Hready & Hrow & _ & Hfit & Hfuel).
  destruct (calculateProject_returns lateFirst 5 0 environment row Hready Hrow Hfit Hfuel)
    as (result & Hrun & _).
  exists environment, result. eexists. split; [exact Henv|]. split; [exact Hrun|].
  exact (calculateProject_frame lateFirst 5 0 1 environment result _ Hrun).
Defined.

(** The two results of the driver are those of the two calls on the
    environment as built. *)
Lemma syncMonteCarlo_each_result_run :
  ∃ results σ' environment,
    opt_projects (optionsWith 0 2 5) = Some 0
    ∧ syncMonteCarlo lateFirst cyclicRandom 5 (Some (optionsWith 0 2 5)) twoProjects
      = Ok (results, σ')
    ∧ builtFor lateFirst (optionsWith 0 2 5) twoProjects = Some environment
    ∧ Forall2 (λ q result,
                 onlyResult (calculateProject lateFirst 5 q environment) = Ok result)
        [1; 0] results.
Proof.
  assert (opt_projects (optionsWith 0 2 5) = Some 0) as Hl by reflexivity.
  destruct (syncMonteCarlo lateFirst cyclicRandom 5 (Some (optionsWith 0 2 5)) twoProjects)
    as [[results σ']| |] eqn:Hrun; [|vm_compute in Hrun; discriminate..].
  destruct (syncMonteCarlo_each_result lateFirst cyclicRandom 5 (optionsWith 0 2 5)
              twoProjects 0 results σ' Hl Hrun) as (environment & Henv & Hall).
  exists results, σ', environment. split; [exact Hl|].
  split; [first [exact Hrun|reflexivity]|].
  split; [|exact Hall].
  unfold builtFor. rewrite (surjective_pairing (initializeOptions _ _)). by rewrite Henv.
Defined.

(** Year 0 of the environment of scenario A holds the investment in all
    five runs. *)
Lemma createMonteCarloEnvironment_year_0_run :
  ∃ environment σ',
    createMonteCarloEnvironment scenarioA cyclicRandom
      (initializeOptions (Some (optionsWith 0 2 5)) oneProject).1
      (initializeOptions (Some (optionsWith 0 2 5)) oneProject).2
    = Ok (environment, σ')
    ∧ index (simulatedValues environment) 0
      = Some [1000000; 1000000; 1000000; 1000000; 1000000]%Q.
Proof.
  destruct (createMonteCarloEnvironment scenarioA cyclicRandom _ _)
    as [[environment σ']| |] eqn:Henv; [|vm_compute in Henv; discriminate..].
  exists environment, σ'. split; [first [exact Henv|reflexivity]|].
  exact (proj1 (createMonteCarloEnvironment_year_0 scenarioA cyclicRandom _ _ _ _ Henv)).
Defined.

(** With a volatility of 0 every draw of [cyclicRandom] is 0: the
    reference line of year 0 is 990000, and so is every value of year 1. *)
Lemma createMonteCarloEnvironment_without_shocks_run :
  ∃ environment σ' balance,
    createMonteCarloEnvironment lateFirst cyclicRandom
      (initializeOptions (Some steady) twoProjects).1
      (initializeOptions (Some steady) twoProjects).2
    = Ok (environment, σ')
    ∧ noInterestReferenceLine environment !! 0 = Some (Num balance)
    ∧ simulatedValues environment !! 1
      = Some (replicate 5 (inject_Z (Math_round balance)))
    ∧ Math_round balance = 990000%Z.
Proof.
  destruct (createMonteCarloEnvironment lateFirst cyclicRandom _ _)
    as [[environment σ']| |] eqn:Henv; [|vm_compute in Henv; discriminate..].
  assert (∀ call,
            cyclicRandom call (performance (initializeOptions (Some steady) twoProjects).1)
              (volatility (initializeOptions (Some steady) twoProjects).1) == 0)%Q as Hdraw.
  { intros call. vm_compute. reflexivity. }
  assert (Z.of_nat 0 < numYears (initializeOptions (Some steady) twoProjects).1)%Z as Hyear.
  { reflexivity. }
  destruct (createMonteCarloEnvironment_without_shocks lateFirst cyclicRandom _ _ _ _ 0
              Hdraw Henv Hyear) as (balance & Hline & Hvalues).
  exists environment, σ', balance.
  split; [first [exact Henv|reflexivity]|]. split; [exact Hline|]. split; [exact Hvalues|].
  vm_compute in Henv. injection Henv as <- <-. vm_compute in Hline.
  injection Hline as <-. reflexivity.
Defined.

(** The worker of the second project: its environment has the rows and
    the groups of the whole, and only [numYears] differs (0, the start year
    of the second project, instead of 1). *)
Lemma createMonteCarloEnvironment_partition_run :
  ∃ environment σ' whole σ'',
    createMonteCarloEnvironment lateFirst cyclicRandom secondWorker twoProjects
    = Ok (environment, σ')
    ∧ createMonteCarloEnvironment lateFirst cyclicRandom (withoutPartition secondWorker)
        twoProjects
      = Ok (whole, σ'')
    ∧ simulatedValues environment = simulatedValues whole
    ∧ projectsByStartYear environment = projectsByStartYear whole
    ∧ noInterestReferenceLine environment = noInterestReferenceLine whole
    ∧ env_numYears environment = 0%Z ∧ env_numYears whole = 1%Z.
Proof.
  destruct (createMonteCarloEnvironment lateFirst cyclicRandom secondWorker twoProjects)
    as [[environment σ']| |] eqn:Henv; [|vm_compute in Henv; discriminate..].
  destruct (createMonteCarloEnvironment_partition lateFirst cyclicRandom _ _ _ _ Henv)
    as (whole & σ'' & Hwhole & Hgroups & Hline & Hvalues & _).
  exists environment, σ', whole, σ''.
  split; [first [exact Henv|reflexivity]|]. split; [exact Hwhole|]. split; [exact Hvalues|].
  split; [exact Hgroups|]. split; [exact Hline|].
  vm_compute in Henv. injection Henv as <- <-.
  vm_compute in Hwhole. injection Hwhole as <- <-. by split.
Defined.

(** Five buckets of one value each: bucket [k] has value [k] of the
    sorted row as its minimum and its maximum. *)
Lemma calculateProject_buckets_run :
  ∃ environment row result environment',
    builtFor lateFirst (optionsWith 0 2 5) twoProjects = Some environment
    ∧ ready lateFirst environment 0
    ∧ index (simulatedValues environment) (startYear (lateFirst 0)) = Some row
    ∧ fullBuckets (len row)
    ∧ calculateProject lateFirst 5 0 environment = Ok (result, environment')
    ∧ bucket_min <$> buckets result
      = [Num 980100; Num 980100; Num 990000; Num 999900; Num 999900]
    ∧ ∀ k, k < length (buckets result) →
        ∃ bucket,
          buckets result !! k = Some bucket
          ∧ bucket_min bucket
            = Math_min (Num MAX_VALUE) (at_ (Array_sort Qle_bool row) (Z.of_nat (k * 1)))
          ∧ bucket_max bucket
            = Math_max (Num MIN_VALUE)
                (at_ (Array_sort Qle_bool row) (Z.of_nat (k * 1 + 1 - 1))).
Proof.
  destruct lateFirst_environment as (environment & row & Henv & Hready & Hrow & Hvalues & Hfit & Hfuel).
  destruct (calculateProject_buckets lateFirst 5 0 environment row Hready Hrow Hfit Hfuel)
    as (result & environment' & Hrun & _ & Hbuckets).
  exists environment, row, result, environment'.
  split; [exact Henv|]. split; [exact Hready|]. split; [exact Hrow|]. split; [exact Hfit|].
  split; [exact Hrun|]. split.
  - vm_compute in Henv. injection Henv as <-. vm_compute in Hrun. by injection Hrun as <- _.
  - subst row. exact Hbuckets.
Defined.

(** Each of the five buckets has one sub-bucket, for the green band. *)
Lemma calculateProject_subBuckets_run :
  ∃ environment row result environment',
    builtFor lateFirst (optionsWith 0 2 5) twoProjects = Some environment
    ∧ ready lateFirst environment 0
    ∧ index (simulatedValues environment) (startYear (lateFirst 0)) = Some row
    ∧ fullBuckets (len row)
    ∧ calculateProject lateFirst 5 0 environment = Ok (result, environment')
    ∧ ∀ k bucket,
        buckets result !! k = Some bucket →
        ∀ band, subBuckets bucket !! band
                = subBucketOf band
                    (chunkOf (createGroups 20000 (Num 970000) 10000) band
                       (take 1 (drop (k * 1) (Array_sort Qle_bool row)))).
Proof.
  destruct lateFirst_environment as (environment & row & Henv & Hready & Hrow & Hvalues & Hfit & Hfuel).
  destruct (calculateProject_subBuckets lateFirst 5 0 environment row Hready Hrow Hfit Hfuel)
    as (requiredAmount & result & environment' & Hamount & Hrun & Hsub).
  exists environment, row, result, environment'.
  split; [exact Henv|]. split; [exact Hready|]. split; [exact Hrow|]. split; [exact Hfit|].
  split; [exact Hrun|].
  subst row. vm_compute in Henv. injection Henv as <-.
  vm_compute in Hamount. injection Hamount as <-. exact Hsub.
Defined.

(** The smallest and the largest of the five values of year 1. *)
Lemma calculateProject_extremes_run :
  ∃ environment row result environment',
    builtFor lateFirst (optionsWith 0 2 5) twoProjects = Some environment
    ∧ calculateProject lateFirst 5 0 environment = Ok (result, environment')
    ∧ index (simulatedValues environment) (startYear (lateFirst 0)) = Some row
    ∧ row ≠ []
    ∧ ∃ lowest highest,
        res_min result = Num lowest ∧ res_max result = Num highest
        ∧ lowest ∈ row ∧ highest ∈ row
        ∧ ∀ value, value ∈ row → (lowest <= value <= highest)%Q.
Proof.
  destruct lateFirst_environment as (environment & row & Henv & Hready & Hrow & Hvalues & Hfit & Hfuel).
  destruct (calculateProject_returns lateFirst 5 0 environment row Hready Hrow Hfit Hfuel)
    as (result & Hrun & _).
  assert (row ≠ []) as Hsome by (by subst row).
  exists environment, row, result. eexists.
  split; [exact Henv|]. split; [exact Hrun|]. split; [exact Hrow|]. split; [exact Hsome|].
  exact (calculateProject_extremes lateFirst 5 0 environment result _ row Hrun Hrow Hsome).
Defined.

(** The project of year 0: minimum, maximum and median are the
    investment of 1000000. *)
Lemma calculateProject_year_0_run :
  ∃ environment σ' result environment',
    createMonteCarloEnvironment lateFirst cyclicRandom
      (initializeOptions (Some (optionsWith 0 2 5)) twoProjects).1
      (initializeOptions (Some (optionsWith 0 2 5)) twoProjects).2
    = Ok (environment, σ')
    ∧ startYear (lateFirst 1) = 0%Z
    ∧ calculateProject lateFirst 5 1 environment = Ok (result, environment')
    ∧ addable 1000000
    ∧ res_min result = Num 1000000 ∧ res_max result = Num 1000000
    ∧ ∃ m, res_median result = Num m ∧ (m == 1000000)%Q.
Proof.
  destruct (createMonteCarloEnvironment lateFirst cyclicRandom _ _)
    as [[environment σ']| |] eqn:Henv; [|vm_compute in Henv; discriminate..].
  destruct (calculateProject lateFirst 5 1 environment) as [[result environment']| |] eqn:Hrun;
    [|vm_compute in Henv; injection Henv as <- <-; vm_compute in Hrun; discriminate..].
  exists environment, σ', result, environment'.
  split; [first [exact Henv|reflexivity]|]. split; [reflexivity|]. split; [exact Hrun|].
  assert (startYear (lateFirst 1) = 0%Z) as Hyear by reflexivity.
  assert (0 < numRuns (initializeOptions (Some (optionsWith 0 2 5)) twoProjects).1)%Z as Hruns.
  { reflexivity. }
  assert (addable (investmentAmount (initializeOptions (Some (optionsWith 0 2 5)) twoProjects).1))
    as Hrange.
  { vm_compute. split; discriminate. }
  exact (calculateProject_year_0 lateFirst cyclicRandom _ _ _ _ 5 1 result environment'
           Henv Hyear Hruns Hrange Hrun).
Defined.


(** * The median, the caller's store and the reference line *)

(** X19. The median of a sorted array with at least one value, all
    values between [-Number.MAX_VALUE / 2] and [Number.MAX_VALUE / 2] (so
    that the sum of the two middle values is in the range of the doubles),
    is a number of the same range that splits the array: every value in
    front of position [Math.floor(length / 2)] is at most the median, and
    every value from that position on is at least the median. *)
Lemma addable_mean (a b : Q) : addable a → addable b → addable ((a + b) / 2).
Proof.
  unfold addable. generalize (MAX_VALUE / 2)%Q. intros bound [? ?] [? ?].
  split; [apply Qle_shift_div_l|apply Qle_shift_div_r]; lra.
Qed.

Theorem median_splits (values : list Q) :
  ascending values → values ≠ [] → Forall addable values →
  ∃ m, median values = Num m
       ∧ addable m
       ∧ ∀ (i : nat) value, values !! i = Some value →
           ((Z.of_nat i < len values / 2)%Z → (value <= m)%Q)
           ∧ ((len values / 2 <= Z.of_nat i)%Z → (m <= value)%Q).
Proof.
  intros Hsorted Hsome Hrange.
  assert (0 < len values)%Z as Hlen by (unfold len; destruct values; [done|simpl; lia]).
  unfold median.
  destruct (at_in_range values (len values / 2)) as (upper & Hupper & Hu); [divlia|].
  pose proof (Forall_lookup_1 _ _ _ _ Hrange Hu) as Hupper_range.
  destruct (Z.eqb_spec (len values mod 2) 0) as [Heven|Hodd]; cbn [negb].
  - destruct (at_in_range values (len values / 2 - 1)) as (lower & Hlower & Hl); [divlia|].
    pose proof (Forall_lookup_1 _ _ _ _ Hrange Hl) as Hlower_range.
    rewrite Hupper, Hlower. eexists. split; [reflexivity|].
    split; [by apply addable_mean|].
    assert (lower <= upper)%Q as Horder.
    { apply (ascending_lookup values _ _ _ _ Hsorted Hl Hu). lia. }
    intros i value Hvalue. split; intros Hi.
    + assert (value <= lower)%Q.
      { apply (ascending_lookup values _ _ _ _ Hsorted Hvalue Hl). lia. }
      apply Qle_shift_div_l; lra.
    + assert (upper <= value)%Q.
      { apply (ascending_lookup values _ _ _ _ Hsorted Hu Hvalue). lia. }
      apply Qle_shift_div_r; lra.
  - rewrite Hupper. exists upper. split; [reflexivity|]. split; [exact Hupper_range|].
    intros i value Hvalue. split; intros Hi.
    + apply (ascending_lookup values _ _ _ _ Hsorted Hvalue Hu). lia.
    + apply (ascending_lookup values _ _ _ _ Hsorted Hu Hvalue). lia.
Qed.

Section Store.
Variable deref : ref → IProject.
Variable random : nat → Q → Q → Q.


Lemma sumQ_nonnegative (l : list Q) : Forall (λ x, 0 <= x)%Q l → (0 <= sumQ l)%Q.
Proof.
  induction 1 as [|x l Hx _ IH]; simpl; [lra|]. unfold sumQ in *. simpl. lra.
Qed.

Lemma outflow_nonnegative input (year : nat) :
  (∀ p, p ∈ input → 0 <= totalAmount (deref p))%Q → (0 <= outflow deref input year)%Q.
Proof.
  intros Hamounts. unfold outflow, amounts. apply sumQ_nonnegative.
  apply Forall_fmap, Forall_forall. intros p Hp. simpl.
  apply Hamounts. unfold startingIn in Hp. by apply list_elem_of_filter in Hp as [_ Hp].
Qed.

(** X21. When no project has a negative [totalAmount], the reference
    line without interest never rises and never exceeds the investment: for
    two consecutive years below [numYears], the value of the later year is
    at most the value of the earlier one, which is at most
    [investmentAmount]. *)
Theorem noInterestReferenceLine_never_rises input numYears investmentAmount (year : nat) :
  (∀ p, p ∈ input → 0 <= totalAmount (deref p))%Q →
  (Z.of_nat (S year) < numYears)%Z →
  let line :=
    calculateNoInterestReferenceLine
      (projectsToCashFlows deref (groupBy deref input) numYears) investmentAmount numYears in
  ∃ this next,
    line !! year = Some (Num this) ∧ line !! S year = Some (Num next)
    ∧ (next <= this)%Q ∧ (this <= investmentAmount)%Q.
Proof.
  intros Hamounts Hyear line. unfold line, calculateNoInterestReferenceLine.
  set (cashFlows := projectsToCashFlows deref (groupBy deref input) numYears).
  assert (length cashFlows = Z.to_nat numYears) as Hlength.
  { apply projectsToCashFlows_length. }
  destruct (noInterestLoop_lookup cashFlows (Z.to_nat numYears) 0 investmentAmount year)
    as (this & Hthis & Hsum); [lia..|].
  destruct (noInterestLoop_lookup cashFlows (Z.to_nat numYears) 0 investmentAmount (S year))
    as (next & Hnext & Hsum'); [lia..|].
  exists this, next. split; [exact Hthis|]. split; [exact Hnext|].
  rewrite drop_0 in Hsum, Hsum'.
  destruct (projectsToCashFlows_lookup deref input numYears (S year))
    as (cashFlow & HcashFlow & Hflow); [lia|].
  fold cashFlows in HcashFlow.
  rewrite (take_S_r _ _ _ HcashFlow), sumQ_app in Hsum'.
  pose proof (outflow_nonnegative input (S year) Hamounts) as Hout.
  pose proof (cashFlows_prefix deref input numYears (S year) ltac:(lia)) as Hprefix.
  fold cashFlows in Hprefix.
  assert (0 <= sumQ (outflow deref input <$> seq 0 (S year)))%Q as Hspent.
  { apply sumQ_nonnegative, Forall_fmap, Forall_forall. intros y _.
    by apply outflow_nonnegative. }
  assert (sumQ [cashFlow] == cashFlow)%Q as Hone by (unfold sumQ; simpl; ring).
  split; lra.
Qed.
End Store.

(** The median of four sorted values splits them two and two. *)
Lemma median_splits_four :
  ∃ m, median [1; 2; 3; 4]%Q = Num m
       ∧ addable m
       ∧ ∀ (i : nat) value, [1; 2; 3; 4]%Q !! i = Some value →
           ((Z.of_nat i < len [1; 2; 3; 4]%Q / 2)%Z → (value <= m)%Q)
           ∧ ((len [1; 2; 3; 4]%Q / 2 <= Z.of_nat i)%Z → (m <= value)%Q).
Proof.
  apply median_splits.
  - unfold ascending. repeat constructor.
  - discriminate.
  - repeat constructor; vm_compute; discriminate.
Defined.


(** The reference line of the two projects of [lateFirst]: 990000 after
    year 0, 970000 after year 1. *)
Lemma noInterestReferenceLine_never_rises_run :
  ∃ this next,
    calculateNoInterestReferenceLine
      (projectsToCashFlows lateFirst (groupBy lateFirst [0; 1]) 2) 1000000 2 !! 0
    = Some (Num this)
    ∧ calculateNoInterestReferenceLine
        (projectsToCashFlows lateFirst (groupBy lateFirst [0; 1]) 2) 1000000 2 !! 1
      = Some (Num next)
    ∧ (next <= this)%Q ∧ (this <= 1000000)%Q.
Proof.
  apply (noInterestReferenceLine_never_rises lateFirst [0; 1] 2 1000000 0).
  - intros p _. destruct p; vm_compute; discriminate.
  - reflexivity.
Defined.

Section EnvironmentGrouping.
Variable deref : ref → IProject.
Variable random : nat → Q → Q → Q.

(** X22. In every environment that [createMonteCarloEnvironment]
    returns, with or without a partition, [projectsByStartYear] has an
    entry exactly for the years in which a project of the options starts,
    and the entry of a year lists the projects of that year in the order
    of the caller's array. *)
Theorem createMonteCarloEnvironment_grouping options σ environment σ' (year : Z) :
  createMonteCarloEnvironment deref random options σ = Ok (environment, σ') →
  projectsByStartYear environment !! year
  = match startingIn deref year (read σ (projects options)) with
    | [] => None
    | found => Some found
    end.
Proof.
  intros Henv.
  destruct (createMonteCarloEnvironment_parts deref random _ _ _ _ Henv) as (_ & -> & _).
  by rewrite groupBy_lookup, startingIn_Array_sort.
Qed.
End EnvironmentGrouping.

(** The grouping of the two projects of [lateFirst]: reference 1 under
    year 0, reference 0 under year 1, nothing under year 2. *)
Lemma createMonteCarloEnvironment_grouping_run :
  ∃ environment σ',
    createMonteCarloEnvironment lateFirst cyclicRandom secondWorker twoProjects
    = Ok (environment, σ')
    ∧ projectsByStartYear environment !! 0%Z = Some [1]
    ∧ projectsByStartYear environment !! 1%Z = Some [0]
    ∧ projectsByStartYear environment !! 2%Z = None.
Proof.
  destruct (createMonteCarloEnvironment lateFirst cyclicRandom secondWorker twoProjects)
    as [[environment σ']| |] eqn:Henv; [|vm_compute in Henv; discriminate..].
  exists environment, σ'. split; [first [exact Henv|reflexivity]|].
  rewrite !(createMonteCarloEnvironment_grouping lateFirst cyclicRandom _ _ _ _ _ Henv).
  repeat split; vm_compute; reflexivity.
Defined.
